(** * The ClickHouse outlet worker of akvorado (outlet/clickhouse/worker.go)

    A shallow embedding of the batched, multi-destination write path:
    [NewWorker], [FinalizeAndSend], [Flush], [flushSingleDestination] and
    [connectDestination], followed by the properties of the specification
    that can be stated over it.

    Conventions.
    - Go's [int] and [uint] are the 64-bit ones; they are integers of [Z]
      with the wrap-around of every conversion and increment written out.
    - Everything outside the worker (the network, the clock, the random
      source, the cancellation of the context, the batch buffer's
      [Finalize]) is an oracle of the record [Env], indexed by a logical
      clock that advances by one at every blocking call (dial, ping, send,
      back-off sleep).
    - Every function returns the events it produced, in order: network
      calls with their results, log lines, metric updates, calls on the
      batch buffer.
    - A loop that may not end ([backoff.Retry]) takes fuel; running out of
      fuel is the outcome [Running], with the state and the events reached
      so far.
    - The goroutines of one flush touch disjoint writers and read the same
      buffer; they are run one after the other, in the order of
      [destWriters]. The order in which they end, which decides the error
      that [g.Wait()] returns when several fail, is an oracle of [Env]
      too. *)

From Stdlib Require Import ZArith List String Ascii Bool Lia Permutation
  DecimalString.
From Stdlib.Strings Require Import Byte.
Import ListNotations.
Open Scope string_scope.
Open Scope list_scope.
Open Scope Z_scope.

(** ** Machine integers *)

Module GoInt.

Definition min_int : Z := - 2 ^ 63.
Definition max_int : Z := 2 ^ 63 - 1.
Definition max_uint : Z := 2 ^ 64 - 1.

Definition is_int (z : Z) : Prop := min_int <= z <= max_int.
Definition is_uint (z : Z) : Prop := 0 <= z <= max_uint.

(** [int(x)]: conversion to the signed 64-bit type. *)
Definition to_int (z : Z) : Z := (z + 2 ^ 63) mod 2 ^ 64 - 2 ^ 63.

(** [uint(x)], [uint64(x)]: conversion to the unsigned 64-bit type. *)
Definition to_uint (z : Z) : Z := z mod 2 ^ 64.

End GoInt.

(** ** Time *)

Module GoTime.

(** A [time.Time] is a number of nanoseconds since January 1, year 1,
    00:00:00 UTC, the zero value of the type; a [time.Duration] is a signed
    64-bit number of nanoseconds. *)
Definition Time := Z.
Definition Duration := Z.

Definition zero : Time := 0.

Definition IsZero (t : Time) : bool := t =? 0.

(** [t.Sub(u)]: the difference, saturated to the range of [Duration]. *)
Definition Sub (t u : Time) : Duration :=
  if t - u <? GoInt.min_int then GoInt.min_int
  else if GoInt.max_int <? t - u then GoInt.max_int
  else t - u.

(** [d.Milliseconds()]: integer division, truncated towards zero. *)
Definition Milliseconds (d : Duration) : Z := Z.quot d 1000000.

(** Nanoseconds from the zero time to January 1, 1970 UTC. *)
Definition unixEpoch : Time := 62135596800 * 1000000000.

End GoTime.

Import GoInt GoTime.

(** ** Data *)

Inductive WorkerStatus : Type :=
| WorkerStatusOK
| WorkerStatusOverloaded
| WorkerStatusUnderloaded.

(** The errors that travel through the worker. [NetError] stands for any
    error of [ch.Dial], [Client.Ping] or [Client.Do]; [ContextError] is
    [ctx.Err()]; [PermanentError] is the wrapper of [backoff.Permanent]. *)
Inductive error : Type :=
| NetError (code : nat)
| MaxRetriesError (maxAttempts : Z) (name : string)
| ContextError
| PermanentError (e : error).

(** How a call ends: it returns, it panics (nil dereference, index out of
    range), or it is still running when the fuel is spent. *)
Inductive outcome (A : Type) : Type :=
| Returned (a : A)
| Panicked
| Running.
Arguments Returned {A} a.
Arguments Panicked {A}.
Arguments Running {A}.

(** [ch.Setting] *)
Record Setting : Type := {
  Key : string;
  Value : string;
  Important : bool
}.

(** [ch.Options]; only the address is written by the worker. *)
Record Options : Type := {
  Address : string;
  Database : string;
  User : string
}.

(** [*ch.Client]: the server it was dialed to and the logical time of the
    dial, which tells two connections to one server apart. *)
Record Client : Type := {
  server : string;
  dialed : nat
}.

(** [proto.Input], the columns handed to an insert. *)
Definition Input : Type := list byte.

(** [ch.Query] as the worker fills it; [Body] is [Input.Into(table)]. *)
Record Query : Type := {
  Body : Input * string;
  QInput : Input;
  Settings : list Setting
}.

Definition Into (i : Input) (table : string) : Input * string := (i, table).

(** [Configuration] of the outlet ([MaximumBatchSize] is a [uint],
    [MaximumWaitTime] a [time.Duration]). *)
Record Configuration : Type := {
  MaximumBatchSize : Z;
  MaximumWaitTime : Duration
}.

Definition Configuration_zero : Configuration :=
  {| MaximumBatchSize := 0; MaximumWaitTime := 0 |}.

(** Modelled from the spec: the batch buffer [schema.FlowMessage] is declared
    outside the files at hand. It is an accumulator of records that exposes
    finalize, count, serialize and clear; [Clear] resets the count to zero.
    [Finalize] is left to the environment. *)
Record FlowMessage : Type := {
  flowCount : Z;
  protoInput : Input
}.

Definition FlowCount (bf : FlowMessage) : Z := flowCount bf.
Definition ClickHouseProtoInput (bf : FlowMessage) : Input := protoInput bf.
Definition Clear (bf : FlowMessage) : FlowMessage :=
  {| flowCount := 0; protoInput := [] |}.

(** What the worker reads of a [clickhousedb.Component]: the results of
    [ChGoOptions()] and [MaxRetries()]. *)
Record clickhousedb : Type := {
  ChGoOptions : Options * list string;
  MaxRetries : Z
}.

Record destinationConfig : Type := {
  dc_name : string;
  dc_db : clickhousedb;
  dc_config : Configuration
}.

(** [realComponent]: the destinations ([destinations[0]] is the primary) and
    the hash of the schema, [c.d.Schema.ClickHouseHash()]. *)
Record realComponent : Type := {
  destinations : list destinationConfig;
  ClickHouseHash : string
}.

Record destinationWriter : Type := {
  name : string;
  conn : option Client;
  servers : list string;
  options : Options;
  asyncSettings : list Setting;
  config : Configuration;
  maxRetries : Z
}.

Record realWorker : Type := {
  c : realComponent;
  bf : FlowMessage;
  last : Time;
  worker : Z;
  destWriters : list destinationWriter
}.

(** ** Events

    What a run does, as seen from outside: the calls on the batch buffer
    ([EvFinalize], [EvClear], and [EvProtoInput] for a call of
    [ClickHouseProtoInput]), the network calls with their results, the
    back-off sleeps, the log lines and the metric updates. [EvAttempt]
    marks a call of the retried closure of [flushSingleDestination] that
    got past the check of the retry budget, with the value of [attempts]:
    the start of a write attempt. Durations and counts are recorded as
    the integers the code converts to floats. *)

Inductive Metric : Type :=
| waitTime_Observe (d : Duration)
| overloaded_Inc
| underloaded_Inc
| retriesExceeded_Inc (destination : string)
| errors_Inc (destination : string) (phase : string)
| insertTime_Observe (destination : string) (d : Duration)
| flows_Observe (destination : string) (n : Z).

Inductive Event : Type :=
| EvFinalize
| EvClear
| EvProtoInput
| EvAttempt (destination : string) (attempt : Z)
| EvPing (destination : string) (cl : Client) (r : option error)
| EvClose (destination : string) (cl : Client)
| EvDial (destination : string) (address : string) (r : option error)
| EvDo (destination : string) (cl : Client) (q : Query) (r : option error)
| EvSleep (destination : string)
| EvLog (err : option error) (strs : list (string * string))
        (ints : list (string * Z)) (msg : string)
| EvMetric (m : Metric).

(** ** The environment

    [time_Now t] is [time.Now()] at logical time [t], [ctx_Done t] tells
    whether the context is cancelled by then, [rand_Perm t n] is
    [rand.Perm(n)]. A network call answers [None] for success and
    [Some code] for the error [NetError code]. [first_done t] tells, for
    the task of a flush that ended with an error at logical time [t],
    whether that error was recorded before those of the failing tasks
    listed after it: the goroutines of a flush end in an order that is
    the network's. *)

Record Env : Type := {
  time_Now : nat -> Time;
  ctx_Done : nat -> bool;
  rand_Perm : nat -> nat -> list nat;
  ch_Dial : nat -> Options -> option nat;
  client_Ping : nat -> Client -> option nat;
  client_Do : nat -> Client -> Query -> option nat;
  Finalize : FlowMessage -> FlowMessage;
  first_done : nat -> bool
}.

(** ** Record updates *)

Definition set_Address (o : Options) (a : string) : Options :=
  {| Address := a; Database := Database o; User := User o |}.

Definition set_conn (dw : destinationWriter) (cn : option Client)
  : destinationWriter :=
  {| name := name dw; conn := cn; servers := servers dw;
     options := options dw; asyncSettings := asyncSettings dw;
     config := config dw; maxRetries := maxRetries dw |}.

Definition set_options (dw : destinationWriter) (o : Options)
  : destinationWriter :=
  {| name := name dw; conn := conn dw; servers := servers dw;
     options := o; asyncSettings := asyncSettings dw;
     config := config dw; maxRetries := maxRetries dw |}.

Definition set_bf (w : realWorker) (b : FlowMessage) : realWorker :=
  {| c := c w; bf := b; last := last w; worker := worker w;
     destWriters := destWriters w |}.

Definition set_last (w : realWorker) (t : Time) : realWorker :=
  {| c := c w; bf := bf w; last := t; worker := worker w;
     destWriters := destWriters w |}.

Definition set_destWriters (w : realWorker) (l : list destinationWriter)
  : realWorker :=
  {| c := c w; bf := bf w; last := last w; worker := worker w;
     destWriters := l |}.

(** ** NewWorker *)

(** [strconv.FormatUint(n, 10)] *)
Definition FormatUint (n : Z) : string :=
  NilZero.string_of_uint (N.to_uint (Z.to_N n)).

Definition newWriter (dest : destinationConfig) : destinationWriter :=
  let '(opts, srvs) := ChGoOptions (dc_db dest) in
  {| name := dc_name dest;
     conn := None;
     servers := srvs;
     options := opts;
     asyncSettings :=
       [ {| Key := "async_insert"; Value := "1"; Important := true |};
         {| Key := "wait_for_async_insert"; Value := "1";
            Important := true |};
         {| Key := "async_insert_busy_timeout_max_ms";
            Value := FormatUint
              (to_uint (Milliseconds (MaximumWaitTime (dc_config dest))));
            Important := false |} ];
     config := dc_config dest;
     maxRetries := MaxRetries (dc_db dest) |}.

Definition NewWorker (cm : realComponent) (i : Z) (b : FlowMessage)
  : realWorker :=
  {| c := cm; bf := b; last := GoTime.zero; worker := i;
     destWriters := map newWriter (destinations cm) |}.

(** [primaryConfig] (root.go) *)
Definition primaryConfig (cm : realComponent) : Configuration :=
  match destinations cm with
  | [] => Configuration_zero
  | d :: _ => dc_config d
  end.

(** ** The worker *)

Section Worker.

Variable env : Env.

(** The constant [minimumBatchSizeDivider] is declared outside the files at
    hand; it divides a [uint], so it is a positive number. *)
Variable minimumBatchSizeDivider : positive.

Definition logfields (w : realWorker) (ints : list (string * Z))
  : list (string * Z) :=
  ("worker", worker w) :: ints.

(** The loop of [connectDestination] over [rand.Perm(len(dw.servers))]. *)
Fixpoint tryServers (w : realWorker) (perm : list nat) (clk : nat)
  (dw : destinationWriter) (lastErr : option error)
  : outcome (option error) * nat * destinationWriter * list Event :=
  match perm with
  | [] => (Returned lastErr, clk, dw, [])
  | idx :: rest =>
    match nth_error (servers dw) idx with
    | None => (Panicked, clk, dw, [])
    | Some addr =>
      let dw1 := set_options dw (set_Address (options dw) addr) in
      match ch_Dial env clk (options dw1) with
      | Some code =>
        let err := NetError code in
        let '(o, clk', dw', evs) :=
          tryServers w rest (S clk) dw1 (Some err) in
        (o, clk', dw',
         EvDial (name dw) addr (Some err)
         :: EvLog (Some err)
              [("destination", name dw); ("server", addr)] (logfields w [])
              "failed to connect to ClickHouse server"
         :: evs)
      | None =>
        let cl := {| server := addr; dialed := clk |} in
        match client_Ping env (S clk) cl with
        | Some code =>
          let err := NetError code in
          let '(o, clk', dw', evs) :=
            tryServers w rest (S (S clk)) dw1 (Some err) in
          (o, clk', dw',
           EvDial (name dw) addr None
           :: EvPing (name dw) cl (Some err)
           :: EvLog (Some err)
                [("destination", name dw); ("server", addr)] (logfields w [])
                "ClickHouse server ping failed"
           :: EvClose (name dw) cl
           :: evs)
        | None =>
          (Returned None, S (S clk), set_conn dw1 (Some cl),
           [ EvDial (name dw) addr None;
             EvPing (name dw) cl None;
             EvLog None
               [("destination", name dw); ("server", addr)] (logfields w [])
               "connected to ClickHouse server" ])
        end
      end
    end
  end.

Definition connectDestination (w : realWorker) (clk : nat)
  (dw : destinationWriter)
  : outcome (option error) * nat * destinationWriter * list Event :=
  match conn dw with
  | Some cl =>
    match client_Ping env clk cl with
    | None => (Returned None, S clk, dw, [EvPing (name dw) cl None])
    | Some code =>
      let err := NetError code in
      let dw1 := set_conn dw None in
      let '(o, clk', dw', evs) :=
        tryServers w (rand_Perm env (S clk) (List.length (servers dw1)))
          (S clk) dw1 None in
      (o, clk', dw',
       EvPing (name dw) cl (Some err) :: EvClose (name dw) cl :: evs)
    end
  | None =>
    tryServers w (rand_Perm env clk (List.length (servers dw))) clk dw None
  end.

(** The settings of an insert: the async ones for a small batch. *)
Definition insertSettings (w : realWorker) (dw : destinationWriter)
  : list Setting :=
  if to_uint (FlowCount (bf w))
     <=? MaximumBatchSize (config dw) / Z.pos minimumBatchSizeDivider
  then asyncSettings dw
  else [].

Definition insertQuery (w : realWorker) (settings : list Setting) : Query :=
  {| Body := Into (ClickHouseProtoInput (bf w))
               (String.append "flows_"
                  (String.append (ClickHouseHash (c w)) "_raw"));
     QInput := ClickHouseProtoInput (bf w);
     Settings := settings |}.

(** The closure handed to [backoff.Retry]: one call. It returns the new
    value of [attempts] next to the rest. *)
Definition operation (w : realWorker) (settings : list Setting)
  (maxAttempts : Z) (attempts : Z) (clk : nat) (dw : destinationWriter)
  : outcome (option error) * Z * nat * destinationWriter * list Event :=
  let attempts := to_int (attempts + 1) in
  if (0 <? maxAttempts) && (maxAttempts <? attempts) then
    let err := MaxRetriesError maxAttempts (name dw) in
    (Returned (Some (PermanentError err)), attempts, clk, dw,
     [ EvLog (Some err) [("destination", name dw)]
         (logfields w [("attempts", attempts)]) "giving up on destination";
       EvMetric (retriesExceeded_Inc (name dw)) ])
  else
    match connectDestination w clk dw with
    | (Returned (Some err), clk1, dw1, evs) =>
      (Returned (Some err), attempts, clk1, dw1,
       EvAttempt (name dw) attempts
       :: evs
       ++ [ EvLog (Some err) [("destination", name dw)]
              (logfields w [("attempt", attempts)])
              "cannot connect to ClickHouse";
            EvMetric (errors_Inc (name dw) "connect") ])
    | (Returned None, clk1, dw1, evs) =>
      let start := time_Now env clk1 in
      let q := insertQuery w settings in
      match conn dw1 with
      | None =>
        (Panicked, attempts, clk1, dw1,
         EvAttempt (name dw) attempts :: evs ++ [EvProtoInput; EvProtoInput])
      | Some cl =>
        match client_Do env clk1 cl q with
        | Some code =>
          let err := NetError code in
          (Returned (Some err), attempts, S clk1, set_conn dw1 None,
           EvAttempt (name dw) attempts
           :: evs
           ++ [ EvProtoInput; EvProtoInput;
                EvDo (name dw) cl q (Some err);
                EvLog (Some err) [("destination", name dw)]
                  (logfields w
                     [("flows", FlowCount (bf w)); ("attempt", attempts)])
                  "cannot send batch to ClickHouse";
                EvMetric (errors_Inc (name dw) "send");
                EvClose (name dw) cl ])
        | None =>
          let pushDuration := Sub (time_Now env (S clk1)) start in
          (Returned None, attempts, S clk1, dw1,
           EvAttempt (name dw) attempts
           :: evs
           ++ [ EvProtoInput; EvProtoInput;
                EvDo (name dw) cl q None;
                EvMetric (insertTime_Observe (name dw) pushDuration);
                EvMetric (flows_Observe (name dw) (FlowCount (bf w))) ])
        end
      end
    | (o, clk1, dw1, evs) =>
      (o, attempts, clk1, dw1, EvAttempt (name dw) attempts :: evs)
    end.

(** [backoff.Retry(operation, backoff.WithContext(b, ctx))] with
    [b.MaxElapsedTime = 0]: the operation is called until it returns nil or
    a permanent error; after a failure the context is looked at before and
    after the back-off sleep, and a cancelled context ends the loop with
    [ctx.Err()]. *)
Fixpoint Retry (fuel : nat) (w : realWorker) (settings : list Setting)
  (maxAttempts : Z) (attempts : Z) (clk : nat) (dw : destinationWriter)
  : outcome (option error) * nat * destinationWriter * list Event :=
  match fuel with
  | O => (Running, clk, dw, [])
  | S fuel' =>
    match operation w settings maxAttempts attempts clk dw with
    | (Returned (Some (PermanentError e)), _, clk1, dw1, evs) =>
      (Returned (Some e), clk1, dw1, evs)
    | (Returned (Some _), attempts1, clk1, dw1, evs) =>
      if ctx_Done env clk1 then (Returned (Some ContextError), clk1, dw1, evs)
      else if ctx_Done env (S clk1)
      then (Returned (Some ContextError), S clk1, dw1,
            evs ++ [EvSleep (name dw)])
      else
        let '(o, clk2, dw2, evs2) :=
          Retry fuel' w settings maxAttempts attempts1 (S clk1) dw1 in
        (o, clk2, dw2, evs ++ EvSleep (name dw) :: evs2)
    | (o, _, clk1, dw1, evs) => (o, clk1, dw1, evs)
    end
  end.

Definition flushSingleDestination (fuel : nat) (w : realWorker) (clk : nat)
  (dw : destinationWriter)
  : outcome (option error) * nat * destinationWriter * list Event :=
  let settings := insertSettings w dw in
  let attempts := 0 in
  let maxAttempts := maxRetries dw in
  let maxAttempts := if maxAttempts =? 0 then -1 else maxAttempts in
  Retry fuel w settings maxAttempts attempts clk dw.

(** What [g.Wait()] returns for a task that ended with [o] and the tasks
    listed after it, for which it returns [os]: nothing before every task
    has returned, and then the first error recorded, which is the error of
    this task when [first] holds or no other task failed. *)
Definition join (first : bool) (o : outcome (option error))
  (os : outcome (option error)) : outcome (option error) :=
  match os with
  | Panicked => Panicked
  | Running => Running
  | Returned e2 =>
    match o with
    | Returned (Some e) =>
      match e2 with
      | Some e' => if first then Returned (Some e) else Returned (Some e')
      | None => Returned (Some e)
      end
    | Returned None => Returned e2
    | _ => o
    end
  end.

(** The tasks of the [errgroup.Group] of [Flush], one per writer, and
    [g.Wait()]. A panic ends the process, so the tasks after it do not
    run. Which of several errors [g.Wait()] returns is the one recorded
    first, told by [first_done]. *)
Fixpoint errgroup (fuel : nat) (w : realWorker) (clk : nat)
  (dws : list destinationWriter)
  : outcome (option error) * nat * list destinationWriter * list Event :=
  match dws with
  | [] => (Returned None, clk, [], [])
  | dw :: rest =>
    match flushSingleDestination fuel w clk dw with
    | (Panicked, clk1, dw1, evs) => (Panicked, clk1, dw1 :: rest, evs)
    | (o, clk1, dw1, evs) =>
      let '(os, clk2, rest', evs2) := errgroup fuel w clk1 rest in
      (join (first_done env clk1) o os, clk2, dw1 :: rest', evs ++ evs2)
    end
  end.

Definition Flush (fuel : nat) (clk : nat) (w : realWorker)
  : outcome unit * nat * realWorker * list Event :=
  if FlowCount (bf w) =? 0 then (Returned tt, clk, w, [])
  else
    let '(o, clk1, dws, evs) := errgroup fuel w clk (destWriters w) in
    let w1 := set_destWriters w dws in
    match o with
    | Returned err =>
      (Returned tt, clk1, set_bf w1 (Clear (bf w1)),
       evs
       ++ match err with
          | Some e =>
            [EvLog (Some e) [] (logfields w [])
               "one or more destinations failed"]
          | None => []
          end
       ++ [EvClear])
    | Panicked => (Panicked, clk1, w1, evs)
    | Running => (Running, clk1, w1, evs)
    end.

Definition FinalizeAndSend (fuel : nat) (clk : nat) (w : realWorker)
  : outcome WorkerStatus * nat * realWorker * list Event :=
  let w := set_bf w (Finalize env (bf w)) in
  let now := time_Now env clk in
  let batchSize := FlowCount (bf w) in
  let waitTime := Sub now (last w) in
  let primaryConfig := primaryConfig (c w) in
  if (to_int (MaximumBatchSize primaryConfig) <=? batchSize)
     || (MaximumWaitTime primaryConfig <=? waitTime)
  then
    let observed :=
      if negb (IsZero (last w))
      then [EvMetric (waitTime_Observe (Sub now (last w)))]
      else [] in
    match Flush fuel clk w with
    | (Returned _, clk1, w1, evs) =>
      let w2 := set_last w1 (time_Now env clk1) in
      if MaximumBatchSize primaryConfig <=? to_uint batchSize then
        (Returned WorkerStatusOverloaded, clk1, w2,
         EvFinalize :: observed ++ evs ++ [EvMetric overloaded_Inc])
      else if to_uint batchSize
              <=? MaximumBatchSize primaryConfig
                  / Z.pos minimumBatchSizeDivider then
        (Returned WorkerStatusUnderloaded, clk1, w2,
         EvFinalize :: observed ++ evs ++ [EvMetric underloaded_Inc])
      else
        (Returned WorkerStatusOK, clk1, w2, EvFinalize :: observed ++ evs)
    | (Panicked, clk1, w1, evs) =>
      (Panicked, clk1, w1, EvFinalize :: observed ++ evs)
    | (Running, clk1, w1, evs) =>
      (Running, clk1, w1, EvFinalize :: observed ++ evs)
    end
  else
    (Returned WorkerStatusOK, clk, w, [EvFinalize]).

End Worker.

(** ** Observations on a run *)

(** The condition of [FinalizeAndSend] as the code evaluates it on the
    state before the call. *)
Definition triggered (env : Env) (clk : nat) (w : realWorker) : bool :=
  (to_int (MaximumBatchSize (primaryConfig (c w)))
   <=? FlowCount (Finalize env (bf w)))
  || (MaximumWaitTime (primaryConfig (c w))
      <=? Sub (time_Now env clk) (last w)).

(** The two thresholds as the specification words them: the finalized
    batch size against the primary's [MaximumBatchSize], the time since
    the last flush against its [MaximumWaitTime]. *)
Definition thresholdCrossed (env : Env) (clk : nat) (w : realWorker) : Prop :=
  MaximumBatchSize (primaryConfig (c w)) <= FlowCount (Finalize env (bf w))
  \/ MaximumWaitTime (primaryConfig (c w))
     <= Sub (time_Now env clk) (last w).

(** The load signal of the specification for a batch of [s] records. *)
Definition loadSignal (K : positive) (cfg : Configuration) (s : Z)
  : WorkerStatus :=
  if MaximumBatchSize cfg <=? s then WorkerStatusOverloaded
  else if s <=? MaximumBatchSize cfg / Z.pos K then WorkerStatusUnderloaded
  else WorkerStatusOK.

Definition isProtoInput (e : Event) : bool :=
  match e with EvProtoInput => true | _ => false end.

Definition isDo (e : Event) : bool :=
  match e with EvDo _ _ _ _ => true | _ => false end.

Definition isDial (e : Event) : bool :=
  match e with EvDial _ _ _ => true | _ => false end.

Definition isAttemptOf (d : string) (e : Event) : bool :=
  match e with EvAttempt d' _ => String.eqb d d' | _ => false end.

Definition isWriteOf (d : string) (e : Event) : bool :=
  match e with EvDo d' _ _ None => String.eqb d d' | _ => false end.

Definition isExceededOf (d : string) (e : Event) : bool :=
  match e with
  | EvMetric (retriesExceeded_Inc d') => String.eqb d d'
  | _ => false
  end.

Definition isWaitTime (e : Event) : bool :=
  match e with EvMetric (waitTime_Observe _) => true | _ => false end.

Definition count (p : Event -> bool) (evs : list Event) : nat :=
  List.length (filter p evs).

(** The calls of the buffer's serializing accessor. *)
Definition serializations (evs : list Event) : nat := count isProtoInput evs.

(** The sends ([Client.Do]) of a run. *)
Definition sends (evs : list Event) : nat := count isDo evs.

(** The write attempts on a destination: the calls of the retried closure
    that got past the check of the retry budget. *)
Definition attemptsOf (d : string) (evs : list Event) : nat :=
  count (isAttemptOf d) evs.

(** The successful writes to a destination. *)
Definition writesOf (d : string) (evs : list Event) : nat :=
  count (isWriteOf d) evs.

(** The increments of the retries-exceeded counter of a destination. *)
Definition exceededOf (d : string) (evs : list Event) : nat :=
  count (isExceededOf d) evs.

(** The destination an event is labelled with, when it has one. *)
Definition destinationOf (e : Event) : option string :=
  match e with
  | EvAttempt d _ | EvPing d _ _ | EvClose d _ | EvDial d _ _
  | EvDo d _ _ _ | EvSleep d => Some d
  | EvMetric (retriesExceeded_Inc d) | EvMetric (errors_Inc d _)
  | EvMetric (insertTime_Observe d _) | EvMetric (flows_Observe d _) => Some d
  | _ => None
  end.

(** The candidates a connect went through, in order: the address dialed
    and the error that ruled it out, if any (of the dial, or of the probe
    that follows a dial that went well). *)
Fixpoint tried (evs : list Event) : list (string * option error) :=
  match evs with
  | [] => []
  | EvDial _ a (Some e) :: rest => (a, Some e) :: tried rest
  | EvDial _ a None :: rest =>
    match rest with
    | EvPing _ _ r :: _ => (a, r) :: tried rest
    | _ => tried rest
    end
  | _ :: rest => tried rest
  end.

(** The candidate addresses in the order of a permutation of indices. *)
Definition candidates (srvs : list string) (perm : list nat) : list string :=
  map (fun i => nth i srvs "") perm.

(** Equally likely outcomes, given as the list of them: all are among
    [good], and each of [good] is met [k] times. *)
Definition equally_often {A : Type} (dec : forall x y : A, {x = y} + {x <> y})
  (outcomes : list A) (good : A -> Prop) (k : nat) : Prop :=
  (forall x, In x outcomes -> good x)
  /\ (forall x, good x -> count_occ dec outcomes x = k).

(** [rand.Perm(n)] answers a permutation of [0 .. n-1]. *)
Definition perm_ok (env : Env) : Prop :=
  forall t n, Permutation (rand_Perm env t n) (seq 0 n).

(** The context is never cancelled. *)
Definition never_cancelled (env : Env) : Prop :=
  forall t, ctx_Done env t = false.

(** Every dial to a server of the writer fails. *)
Definition dials_fail (env : Env) (dw : destinationWriter) : Prop :=
  forall t o, In (Address o) (servers dw) -> ch_Dial env t o <> None.

(** Every send on a connection to a server of the writer fails. *)
Definition sends_fail (env : Env) (dw : destinationWriter) : Prop :=
  forall t cl q, In (server cl) (servers dw) -> client_Do env t cl q <> None.

(** Every dial, probe and send on a server of the writer goes well. *)
Definition always_succeeds (env : Env) (dw : destinationWriter) : Prop :=
  (forall t o, In (Address o) (servers dw) -> ch_Dial env t o = None)
  /\ (forall t cl, In (server cl) (servers dw) -> client_Ping env t cl = None)
  /\ (forall t cl q,
        In (server cl) (servers dw) -> client_Do env t cl q = None).

(** A live connection of a writer is to one of its servers. *)
Definition conn_in_servers (dw : destinationWriter) : Prop :=
  forall cl, conn dw = Some cl -> In (server cl) (servers dw).

(** A destination that is down: it has servers, and every dial and every
    send on them fails. *)
Definition down (env : Env) (dw : destinationWriter) : Prop :=
  servers dw <> [] /\ dials_fail env dw /\ sends_fail env dw
  /\ conn_in_servers dw.

(** A destination that is up: it has servers, and every call on them goes
    well. *)
Definition up (env : Env) (dw : destinationWriter) : Prop :=
  servers dw <> [] /\ always_succeeds env dw /\ conn_in_servers dw.

(** What the task of a writer counts for in the events of a flush: one
    attempt and one write when the destination is up; as many attempts as
    the retry budget, no write and one exhaustion when it is down. *)
Definition tally (env : Env) (dw : destinationWriter) (evs : list Event)
  : Prop :=
  (up env dw /\ attemptsOf (name dw) evs = 1%nat
   /\ writesOf (name dw) evs = 1%nat /\ exceededOf (name dw) evs = 0%nat)
  \/ (down env dw /\ Z.of_nat (attemptsOf (name dw) evs) = maxRetries dw
      /\ writesOf (name dw) evs = 0%nat /\ exceededOf (name dw) evs = 1%nat).

(** A writer that is up, or down with a retry budget below the fuel. *)
Definition upOrBounded (env : Env) (fuel : nat) (dw : destinationWriter)
  : Prop :=
  up env dw
  \/ (down env dw /\ 0 < maxRetries dw < max_int
      /\ maxRetries dw < Z.of_nat fuel).

Definition isClear (e : Event) : bool :=
  match e with EvClear => true | _ => false end.

(** The buffer is serialized exactly once in a run. *)
Definition serializedOnce (evs : list Event) : Prop :=
  serializations evs = 1%nat.

(** The tasks of one flush with what each returned and produced, in the
    order of [errgroup]. *)
Fixpoint taskResults (env : Env) (K : positive) (fuel : nat) (w : realWorker)
  (clk : nat) (dws : list destinationWriter)
  : list (outcome (option error) * list Event) :=
  match dws with
  | [] => []
  | dw :: rest =>
    let '(o, clk1, _, evs) := flushSingleDestination env K fuel w clk dw in
    (o, evs) :: taskResults env K fuel w clk1 rest
  end.

Definition settled (r : outcome (option error) * list Event) : Prop :=
  exists e, fst r = Returned e.

(** The tasks of one flush with what each returned and the logical time
    at which it ended, in the order of [errgroup]. *)
Fixpoint taskEnds (env : Env) (K : positive) (fuel : nat) (w : realWorker)
  (clk : nat) (dws : list destinationWriter)
  : list (outcome (option error) * nat) :=
  match dws with
  | [] => []
  | dw :: rest =>
    let '(o, clk1, _, _) := flushSingleDestination env K fuel w clk dw in
    (o, clk1) :: taskEnds env K fuel w clk1 rest
  end.

(** Among tasks that have all returned, [e] is the error recorded first:
    it is the error of a task, every failing task listed before that one
    recorded its error after one listed later, and that one recorded its
    error before every failing task listed after it. *)
Definition recordedFirst (env : Env)
  (ends : list (outcome (option error) * nat)) (e : error) : Prop :=
  exists pre t post,
    ends = pre ++ (Returned (Some e), t) :: post
    /\ Forall (fun r => fst r = Returned None
                        \/ first_done env (snd r) = false) pre
    /\ (first_done env t = true
        \/ Forall (fun r => fst r = Returned None) post).

(** What a connect or a write leaves untouched in a writer. *)
Definition same_static (dw dw' : destinationWriter) : Prop :=
  name dw' = name dw /\ servers dw' = servers dw
  /\ asyncSettings dw' = asyncSettings dw /\ config dw' = config dw
  /\ maxRetries dw' = maxRetries dw.

(** The events a task of destination [d] may produce: log lines, reads of
    the buffer, and network calls and metrics labelled with [d]. *)
Definition taskEvent (d : string) (e : Event) : bool :=
  match e with
  | EvProtoInput | EvLog _ _ _ _ => true
  | EvFinalize | EvClear => false
  | EvMetric (waitTime_Observe _) | EvMetric overloaded_Inc
  | EvMetric underloaded_Inc => false
  | EvAttempt d' _ | EvPing d' _ _ | EvClose d' _ | EvDial d' _ _
  | EvDo d' _ _ _ | EvSleep d'
  | EvMetric (retriesExceeded_Inc d') | EvMetric (errors_Inc d' _)
  | EvMetric (insertTime_Observe d' _) | EvMetric (flows_Observe d' _) =>
    String.eqb d d'
  end.

(** The events of a connect of destination [d]: dials, probes and closes
    labelled with [d], and log lines. *)
Definition connectEvent (d : string) (e : Event) : bool :=
  match e with
  | EvLog _ _ _ _ => true
  | EvPing d' _ _ | EvClose d' _ | EvDial d' _ _ => String.eqb d d'
  | _ => false
  end.

(** A send carries the input of the buffer of [w] into the table of the
    schema. *)
Definition carriesBuffer (w : realWorker) (e : Event) : Prop :=
  forall d cl q r, e = EvDo d cl q r ->
    QInput q = ClickHouseProtoInput (bf w)
    /\ Body q = Into (ClickHouseProtoInput (bf w))
                  (String.append "flows_"
                     (String.append (ClickHouseHash (c w)) "_raw")).

(** A send carries the settings [st]. *)
Definition carriesSettings (st : list Setting) (e : Event) : Prop :=
  forall d cl q r, e = EvDo d cl q r -> Settings q = st.

(** The record count observed after a successful write is [n]. *)
Definition observesCount (n : Z) (e : Event) : Prop :=
  forall d m, e = EvMetric (flows_Observe d m) -> m = n.

(** The parts of what a call returns. *)
Definition outcomeOf {A S : Type} (r : outcome A * nat * S * list Event)
  : outcome A := fst (fst (fst r)).
Definition clockOf {A S : Type} (r : outcome A * nat * S * list Event)
  : nat := snd (fst (fst r)).
Definition stateOf {A S : Type} (r : outcome A * nat * S * list Event)
  : S := snd (fst r).
Definition eventsOf {A S : Type} (r : outcome A * nat * S * list Event)
  : list Event := snd r.

(** The events of the tasks of a flush over the writers [dws]. *)
Definition flushEvent (dws : list destinationWriter) (e : Event) : Prop :=
  exists dw, In dw dws /\ taskEvent (name dw) e = true.

(** *** Further observations *)

Definition isOpen (e : Event) : bool :=
  match e with EvDial _ _ None => true | _ => false end.

Definition isClose (e : Event) : bool :=
  match e with EvClose _ _ => true | _ => false end.

Definition isSleep (e : Event) : bool :=
  match e with EvSleep _ => true | _ => false end.

Definition isErrorOf (d : string) (e : Event) : bool :=
  match e with
  | EvMetric (errors_Inc d' _) => String.eqb d d'
  | _ => false
  end.

Definition isOverloaded (e : Event) : bool :=
  match e with EvMetric overloaded_Inc => true | _ => false end.

Definition isUnderloaded (e : Event) : bool :=
  match e with EvMetric underloaded_Inc => true | _ => false end.

(** The connections opened (dials that went well) and closed in a run. *)
Definition opens (evs : list Event) : nat := count isOpen evs.
Definition closes (evs : list Event) : nat := count isClose evs.

(** The dials of a run, and its back-off sleeps. *)
Definition dials (evs : list Event) : nat := count isDial evs.
Definition sleeps (evs : list Event) : nat := count isSleep evs.

(** The increments of the error counter of a destination. *)
Definition errorsOf (d : string) (evs : list Event) : nat :=
  count (isErrorOf d) evs.

(** The connections a writer, or a list of writers, holds. *)
Definition held (dw : destinationWriter) : nat :=
  match conn dw with Some _ => 1%nat | None => 0%nat end.

Definition heldAll (dws : list destinationWriter) : nat :=
  list_sum (map held dws).

(** An increment of the error counter is labelled with the phase
    "connect" or "send". *)
Definition knownPhase (e : Event) : Prop :=
  forall d ph, e = EvMetric (errors_Inc d ph) ->
    ph = "connect" \/ ph = "send".

(** An event that is no call on a destination and no metric of one. *)
Definition offNetwork (e : Event) : Prop := destinationOf e = None.

(** The budget check of the retried closure: whether the call that finds
    [attempts = a] gives up. *)
Definition exhausted (m a : Z) : bool := (0 <? m) && (m <? to_int (a + 1)).

(** ** Concrete environments and workers *)

Module Examples.

Definition second : Duration := 1000000000.

(** A clock that starts in 2025 and ticks a second per logical step. *)
Definition clock (t : nat) : Time :=
  unixEpoch + (1750000000 + Z.of_nat t) * second.

(** Servers whose name starts with "down" refuse every dial; on the
    others every call goes well. The context is never cancelled,
    [rand.Perm] answers the reversed identity, and of the tasks of a
    flush that fail the one listed last records its error first. *)
Definition isDown (a : string) : bool := String.prefix "down" a.

Definition net : Env :=
  {| time_Now := clock;
     ctx_Done := fun _ => false;
     rand_Perm := fun _ n => rev (seq 0 n);
     ch_Dial := fun _ o => if isDown (Address o) then Some 111%nat else None;
     client_Ping := fun _ _ => None;
     client_Do := fun _ cl _ =>
       if isDown (server cl) then Some 32%nat else None;
     Finalize := fun b => b;
     first_done := fun _ => false |}.

(** The same network with a context cancelled from logical time 5 on. *)
Definition netCancelled : Env :=
  {| time_Now := clock;
     ctx_Done := fun t => (5 <=? t)%nat;
     rand_Perm := fun _ n => rev (seq 0 n);
     ch_Dial := ch_Dial net;
     client_Ping := client_Ping net;
     client_Do := client_Do net;
     Finalize := fun b => b;
     first_done := fun _ => false |}.

(** The same network where, of the tasks of a flush that fail, the one
    listed first records its error first. *)
Definition netListed : Env :=
  {| time_Now := clock;
     ctx_Done := fun _ => false;
     rand_Perm := fun _ n => rev (seq 0 n);
     ch_Dial := ch_Dial net;
     client_Ping := client_Ping net;
     client_Do := client_Do net;
     Finalize := fun b => b;
     first_done := fun _ => true |}.

Definition K10 : positive := 10%positive.

Definition cfg (size : Z) : Configuration :=
  {| MaximumBatchSize := size; MaximumWaitTime := 5 * second |}.

Definition db (srvs : list string) (retries : Z) : clickhousedb :=
  {| ChGoOptions :=
       ({| Address := ""; Database := "flows"; User := "default" |}, srvs);
     MaxRetries := retries |}.

Definition dest (n : string) (srvs : list string) (retries : Z) (size : Z)
  : destinationConfig :=
  {| dc_name := n; dc_db := db srvs retries; dc_config := cfg size |}.

Definition component (ds : list destinationConfig) : realComponent :=
  {| destinations := ds; ClickHouseHash := "ABCDEF" |}.

Definition batch (n : Z) : FlowMessage :=
  {| flowCount := n; protoInput := [x2a; x2b]%byte |}.

(** One healthy primary and one secondary that is down and gives up after
    one attempt. *)
Definition dual : realComponent :=
  component [ dest "primary" ["ch1:9000"] 0 100;
              dest "azure" ["down:9440"] 1 100 ].

(** Two destinations that are down: the one listed first gives up after
    two attempts, the other after one. *)
Definition bothDown : realComponent :=
  component [ dest "slow" ["down1:9000"] 2 100;
              dest "fast" ["down2:9000"] 1 100 ].

(** A single healthy destination with three servers of which two are down. *)
Definition failover : realComponent :=
  component [ dest "primary" ["ch3:9000"; "down2:9000"; "down1:9000"] 0 100 ].

(** The six answers [rand.Perm(3)] can give, each once. *)
Definition answers3 : list (list nat) :=
  [ [0; 1; 2]; [0; 2; 1]; [1; 0; 2]; [1; 2; 0]; [2; 0; 1]; [2; 1; 0] ]%nat.

(** A single healthy destination. *)
Definition single : realComponent :=
  component [ dest "primary" ["ch1:9000"] 0 100 ].

(** A single destination with a batch size beyond the signed range. *)
Definition huge : realComponent :=
  component [ dest "primary" ["ch1:9000"] 0 (2 ^ 63) ].

(** A single destination that is down and retries without bound. *)
Definition stuck : realComponent :=
  component [ dest "primary" ["down:9000"] 0 100 ].

(** A single destination without any server. *)
Definition serverless : realComponent :=
  component [ dest "primary" [] 0 100 ].

(** A worker in the middle of its life: its last flush was one second
    before logical time 0. *)
Definition aged (w : realWorker) : realWorker :=
  set_last w (clock 0 - second).

(** The writers of the examples, as [NewWorker] makes them. *)
Definition primaryWriter : destinationWriter :=
  newWriter (dest "primary" ["ch1:9000"] 0 100).
Definition azureWriter : destinationWriter :=
  newWriter (dest "azure" ["down:9440"] 1 100).
Definition stuckWriter : destinationWriter :=
  newWriter (dest "primary" ["down:9000"] 0 100).
Definition failoverWriter : destinationWriter :=
  newWriter (dest "primary" ["ch3:9000"; "down2:9000"; "down1:9000"] 0 100).
Definition serverlessWriter : destinationWriter :=
  newWriter (dest "primary" [] 0 100).

End Examples.

(** * Properties *)

(** ** Conversions *)

Lemma to_uint_id (z : Z) : is_uint z -> to_uint z = z.
Proof.
  unfold is_uint, max_uint, to_uint. intros H.
  apply Z.mod_small. lia.
Qed.

Lemma to_int_id (z : Z) : is_int z -> to_int z = z.
Proof.
  unfold is_int, min_int, max_int, to_int. intros H.
  rewrite Z.mod_small by lia. lia.
Qed.

Lemma count_to_uint (s : Z) : 0 <= s <= max_int -> to_uint s = s.
Proof.
  intros H. apply to_uint_id. unfold is_uint, max_uint, max_int in *. lia.
Qed.

Lemma Sub_from_zero (now : Time) :
  unixEpoch <= now -> Sub now GoTime.zero = max_int.
Proof.
  unfold Sub, unixEpoch, GoTime.zero, min_int, max_int. intros H.
  destruct (Z.ltb_spec (now - 0) (- 2 ^ 63)); [lia|].
  destruct (Z.ltb_spec (2 ^ 63 - 1) (now - 0)); lia.
Qed.

(** ** Counting events *)

Lemma count_app (p : Event -> bool) (l1 l2 : list Event) :
  count p (l1 ++ l2) = (count p l1 + count p l2)%nat.
Proof.
  unfold count. now rewrite filter_app, length_app.
Qed.

Lemma count_cons (p : Event -> bool) (e : Event) (l : list Event) :
  count p (e :: l) = ((if p e then 1 else 0) + count p l)%nat.
Proof.
  unfold count. simpl. now destruct (p e).
Qed.

Lemma count_nil (p : Event -> bool) : count p [] = 0%nat.
Proof. reflexivity. Qed.

(** ** FinalizeAndSend *)

Section FinalizeAndSendFacts.

Variable env : Env.
Variable K : positive.

Lemma Flush_clears fuel clk w u clk' w' evs :
  Flush env K fuel clk w = (Returned u, clk', w', evs) ->
  FlowCount (bf w') = 0.
Proof.
  unfold Flush.
  destruct (Z.eqb_spec (FlowCount (bf w)) 0) as [E|E].
  - intros H. inversion H; subst. exact E.
  - destruct (errgroup env K fuel w clk (destWriters w)) as [[[o clk1] dws] ev].
    destruct o; intros H; inversion H; subst. reflexivity.
Qed.

(** Below the thresholds the call only finalizes the buffer. *)
Lemma FinalizeAndSend_idle fuel clk w :
  triggered env clk w = false ->
  FinalizeAndSend env K fuel clk w
  = (Returned WorkerStatusOK, clk, set_bf w (Finalize env (bf w)),
     [EvFinalize]).
Proof.
  unfold triggered, FinalizeAndSend. simpl. intros ->. reflexivity.
Qed.

(** For a [MaximumBatchSize] within the signed range the condition of the
    code is the one of the specification. *)
Lemma triggered_in_range clk w :
  0 <= MaximumBatchSize (primaryConfig (c w)) <= max_int ->
  triggered env clk w = true <-> thresholdCrossed env clk w.
Proof.
  intros R. unfold triggered, thresholdCrossed.
  rewrite to_int_id by (unfold is_int, min_int, max_int in *; lia).
  rewrite orb_true_iff, !Z.leb_le. tauto.
Qed.

Lemma FinalizeAndSend_threshold_in_range fuel clk w :
  0 <= MaximumBatchSize (primaryConfig (c w)) <= max_int ->
  ~ thresholdCrossed env clk w ->
  FinalizeAndSend env K fuel clk w
  = (Returned WorkerStatusOK, clk, set_bf w (Finalize env (bf w)),
     [EvFinalize]).
Proof.
  intros R N. apply FinalizeAndSend_idle.
  destruct (triggered env clk w) eqn:E; [|reflexivity].
  apply triggered_in_range in E; tauto.
Qed.

(** The shape of a call that crosses a threshold: the events of [Flush] on
    the finalized buffer, between the wait-time observation and the
    load-signal counter. *)
Lemma FinalizeAndSend_flushes fuel clk w o clk' w' evs :
  triggered env clk w = true ->
  FinalizeAndSend env K fuel clk w = (o, clk', w', evs) ->
  exists oF wF evsF pre post,
    Flush env K fuel clk (set_bf w (Finalize env (bf w)))
    = (oF, clk', wF, evsF)
    /\ evs = EvFinalize :: pre ++ evsF ++ post
    /\ pre = (if negb (IsZero (last w))
              then [EvMetric (waitTime_Observe
                                (Sub (time_Now env clk) (last w)))]
              else [])
    /\ count isWaitTime post = 0%nat
    /\ match o with
       | Returned st =>
         oF = Returned tt /\ w' = set_last wF (time_Now env clk')
         /\ st = (if MaximumBatchSize (primaryConfig (c w))
                     <=? to_uint (FlowCount (Finalize env (bf w)))
                  then WorkerStatusOverloaded
                  else if to_uint (FlowCount (Finalize env (bf w)))
                          <=? MaximumBatchSize (primaryConfig (c w))
                              / Z.pos K
                  then WorkerStatusUnderloaded
                  else WorkerStatusOK)
       | Panicked => oF = Panicked /\ w' = wF
       | Running => oF = Running /\ w' = wF
       end.
Proof.
  unfold triggered, FinalizeAndSend. simpl. intros ->.
  destruct (Flush env K fuel clk (set_bf w (Finalize env (bf w))))
    as [[[oF clk1] wF] evsF].
  destruct oF as [[]| |].
  - destruct (MaximumBatchSize (primaryConfig (c w))
              <=? to_uint (FlowCount (Finalize env (bf w)))) eqn:E1;
      [|destruct (to_uint (FlowCount (Finalize env (bf w)))
                  <=? MaximumBatchSize (primaryConfig (c w)) / Z.pos K)
          eqn:E2];
      intros H; inversion H; subst; clear H.
    + exists (Returned tt), wF, evsF. eexists. exists [EvMetric overloaded_Inc].
      repeat split; reflexivity.
    + exists (Returned tt), wF, evsF. eexists.
      exists [EvMetric underloaded_Inc].
      repeat split; reflexivity.
    + exists (Returned tt), wF, evsF. eexists. exists [].
      rewrite app_nil_r. repeat split; reflexivity.
  - intros H; inversion H; subst; clear H.
    exists Panicked, w', evsF. eexists. exists [].
    rewrite app_nil_r. repeat split; reflexivity.
  - intros H; inversion H; subst; clear H.
    exists Running, w', evsF. eexists. exists [].
    rewrite app_nil_r. repeat split; reflexivity.
Qed.

End FinalizeAndSendFacts.

(** ** Invariants of a task *)

Section TaskFacts.

Variable env : Env.
Variable K : positive.

Lemma same_static_refl dw : same_static dw dw.
Proof. repeat split. Qed.

Lemma same_static_trans dw1 dw2 dw3 :
  same_static dw1 dw2 -> same_static dw2 dw3 -> same_static dw1 dw3.
Proof.
  unfold same_static. intros (A1 & A2 & A3 & A4 & A5) (B1 & B2 & B3 & B4 & B5).
  repeat split; congruence.
Qed.

Lemma same_static_set_conn dw cn : same_static dw (set_conn dw cn).
Proof. repeat split. Qed.

Lemma same_static_set_options dw o : same_static dw (set_options dw o).
Proof. repeat split. Qed.

Lemma connectEvent_taskEvent d e :
  connectEvent d e = true -> taskEvent d e = true.
Proof. destruct e; simpl; auto; discriminate. Qed.

Local Ltac task_events :=
  repeat (apply Forall_cons; [simpl; try apply String.eqb_refl; reflexivity|]);
  try apply Forall_nil.

(** The loop over the candidates keeps the writer's configuration, labels
    its events with the writer's name, moves the clock forward, and either
    leaves the connection as it was or returns nil with a connection to one
    of the servers. *)
Lemma tryServers_inv w perm : forall clk dw lastErr o clk' dw' evs,
  tryServers env w perm clk dw lastErr = (o, clk', dw', evs) ->
  same_static dw dw'
  /\ Forall (fun e => connectEvent (name dw) e = true) evs
  /\ (clk <= clk')%nat
  /\ o <> Running
  /\ (conn dw' = conn dw
      \/ (o = Returned None
          /\ exists cl, conn dw' = Some cl /\ In (server cl) (servers dw))).
Proof.
  induction perm as [|idx rest IH]; intros clk dw lastErr o clk' dw' evs; simpl.
  - intros H. inversion H; subst.
    repeat split; auto; try discriminate.
  - destruct (nth_error (servers dw) idx) as [addr|] eqn:N.
    2:{ intros H. inversion H; subst.
        repeat split; auto; try discriminate. }
    destruct (ch_Dial env clk _) as [code|].
    + destruct (tryServers env w rest (S clk) _ _) as [[[o1 c1] d1] e1] eqn:T.
      intros H. inversion H; subst; clear H.
      apply IH in T. destruct T as (S1 & F1 & L1 & R1 & C1).
      split; [eapply same_static_trans; [apply same_static_set_options|exact S1]|].
      split; [|split; [lia|split; [exact R1|exact C1]]].
      simpl in F1. task_events. exact F1.
    + destruct (client_Ping env (S clk) _) as [code|].
      * destruct (tryServers env w rest (S (S clk)) _ _)
          as [[[o1 c1] d1] e1] eqn:T.
        intros H. inversion H; subst; clear H.
        apply IH in T. destruct T as (S1 & F1 & L1 & R1 & C1).
        split; [eapply same_static_trans;
                [apply same_static_set_options|exact S1]|].
        split; [|split; [lia|split; [exact R1|exact C1]]].
        simpl in F1. task_events. exact F1.
      * intros H. inversion H; subst; clear H.
        split; [repeat split|].
        split; [task_events|].
        split; [lia|]. split; [discriminate|].
        right. split; [reflexivity|].
        eexists. split; [reflexivity|]. simpl.
        eapply nth_error_In; eauto.
Qed.

Lemma connectDestination_inv w clk dw o clk' dw' evs :
  connectDestination env w clk dw = (o, clk', dw', evs) ->
  same_static dw dw'
  /\ Forall (fun e => connectEvent (name dw) e = true) evs
  /\ (clk <= clk')%nat
  /\ o <> Running
  /\ (conn_in_servers dw -> conn_in_servers dw').
Proof.
  unfold connectDestination.
  destruct (conn dw) as [cl|] eqn:C.
  - destruct (client_Ping env clk cl) as [code|].
    + destruct (tryServers env w _ (S clk) _ _) as [[[o1 c1] d1] e1] eqn:T.
      intros H. inversion H; subst; clear H.
      apply tryServers_inv in T. destruct T as (S1 & F1 & L1 & R1 & C1).
      split; [eapply same_static_trans;
              [apply (same_static_set_conn dw None)|exact S1]|].
      split; [simpl in F1; task_events; exact F1|].
      split; [lia|]. split; [exact R1|].
      intros _ cl' E. destruct S1 as (_ & S2 & _).
      destruct C1 as [C1|(_ & cl2 & C2 & I2)].
      * rewrite C1 in E. discriminate.
      * rewrite C2 in E. inversion E; subst. rewrite S2. exact I2.
    + intros H. inversion H; subst; clear H.
      split; [apply same_static_refl|]. split; [task_events|].
      split; [lia|]. split; [discriminate|]. auto.
  - intros T. apply tryServers_inv in T.
    destruct T as (S1 & F1 & L1 & R1 & C1).
    repeat split; try apply S1; auto.
    intros _ cl' E. destruct S1 as (_ & S2 & _).
    destruct C1 as [C1|(_ & cl2 & C2 & I2)].
    + rewrite C1, C in E. discriminate.
    + rewrite C2 in E. inversion E; subst. rewrite S2. exact I2.
Qed.

Lemma count_zero (p : Event -> bool) (q : Event -> bool) evs :
  (forall e, q e = true -> p e = false) ->
  Forall (fun e => q e = true) evs ->
  count p evs = 0%nat.
Proof.
  intros H F. induction F as [|e l He _ IH]; [reflexivity|].
  rewrite count_cons, IH, (H e He). reflexivity.
Qed.

Lemma connect_no_ProtoInput d e :
  connectEvent d e = true -> isProtoInput e = false.
Proof. destruct e; simpl; auto; discriminate. Qed.

Lemma connect_no_Do d e : connectEvent d e = true -> isDo e = false.
Proof. destruct e; simpl; auto; discriminate. Qed.

Lemma connect_no_Attempt d d' e :
  connectEvent d e = true -> isAttemptOf d' e = false.
Proof. destruct e; simpl; auto; discriminate. Qed.

Lemma connect_no_Write d d' e :
  connectEvent d e = true -> isWriteOf d' e = false.
Proof. destruct e; simpl; auto; discriminate. Qed.

Lemma connect_no_Exceeded d d' e :
  connectEvent d e = true -> isExceededOf d' e = false.
Proof. destruct e; simpl; auto; discriminate. Qed.

Local Ltac op_cases w settings clk dw :=
  unfold operation;
  match goal with
  | |- context [(0 <? ?m) && (?m <? ?a)] =>
    destruct ((0 <? m) && (m <? a)) eqn:G
  end;
  [ intros H; inversion H; subst; clear H
  | destruct (connectDestination env w clk dw) as [[[oc c1] d1] e1] eqn:CD;
    pose proof (connectDestination_inv _ _ _ _ _ _ _ CD)
      as (S1 & F1 & L1 & R1 & C1);
    destruct oc as [[err|]| |];
    [ intros H; inversion H; subst; clear H
    | destruct (conn d1) as [cl|] eqn:CN;
      [ destruct (client_Do env c1 cl (insertQuery w settings))
          as [code|] eqn:DO;
        intros H; inversion H; subst; clear H
      | intros H; inversion H; subst; clear H ]
    | intros H; inversion H; subst; clear H
    | congruence ] ].

Local Ltac ev_forall tac :=
  repeat first
    [ apply Forall_nil
    | apply Forall_cons; [tac|]
    | apply Forall_app; split
    | solve [tac] ].

(** One call of the retried closure keeps the writer's configuration,
    labels its events with the writer's name, and increments [attempts]. *)
Lemma operation_inv w settings maxAttempts attempts clk dw o att' clk' dw' evs :
  operation env w settings maxAttempts attempts clk dw
  = (o, att', clk', dw', evs) ->
  same_static dw dw'
  /\ Forall (fun e => taskEvent (name dw) e = true) evs
  /\ (clk <= clk')%nat
  /\ o <> Running
  /\ (conn_in_servers dw -> conn_in_servers dw')
  /\ att' = to_int (attempts + 1).
Proof.
  op_cases w settings clk dw;
    (split; [first [apply same_static_refl | exact S1
                  | eapply same_static_trans;
                    [exact S1|apply same_static_set_conn]]|]);
    (split; [ev_forall ltac:(
                first [ simpl; rewrite ?String.eqb_refl; reflexivity
                      | eapply Forall_impl; [|exact F1];
                        intros ? ?; apply connectEvent_taskEvent;
                        assumption ])|]);
    (split; [lia|]); (split; [discriminate|]); (split; [|reflexivity]);
    first [ exact C1 | tauto | intros _ cl' E; discriminate E ].
Qed.

(** A connect fails with a network error only. *)
Lemma tryServers_error w perm : forall clk dw lastErr e clk' dw' evs,
  tryServers env w perm clk dw lastErr = (Returned (Some e), clk', dw', evs) ->
  lastErr = Some e \/ exists code, e = NetError code.
Proof.
  induction perm as [|idx rest IH]; intros clk dw lastErr e clk' dw' evs; simpl.
  - intros H. inversion H; subst. auto.
  - destruct (nth_error (servers dw) idx) as [addr|]; [|discriminate].
    destruct (ch_Dial env clk _) as [code|].
    + destruct (tryServers env w rest (S clk) _ _) as [[[o1 c1] d1] e1] eqn:T.
      intros H. inversion H; subst; clear H.
      apply IH in T. destruct T as [T|T]; [|exact (or_intror T)].
      inversion T; subst. right. eauto.
    + destruct (client_Ping env (S clk) _) as [code|]; [|discriminate].
      destruct (tryServers env w rest (S (S clk)) _ _)
        as [[[o1 c1] d1] e1] eqn:T.
      intros H. inversion H; subst; clear H.
      apply IH in T. destruct T as [T|T]; [|exact (or_intror T)].
      inversion T; subst. right. eauto.
Qed.

Lemma connectDestination_error w clk dw e clk' dw' evs :
  connectDestination env w clk dw = (Returned (Some e), clk', dw', evs) ->
  exists code, e = NetError code.
Proof.
  unfold connectDestination.
  destruct (conn dw) as [cl|].
  - destruct (client_Ping env clk cl) as [code|]; [|discriminate].
    destruct (tryServers env w _ (S clk) _ _) as [[[o1 c1] d1] e1] eqn:T.
    intros H. inversion H; subst; clear H.
    apply tryServers_error in T. destruct T as [T|T]; [discriminate|exact T].
  - intros T. apply tryServers_error in T.
    destruct T as [T|T]; [discriminate|exact T].
Qed.

Lemma connectEvent_carriesBuffer d w e :
  connectEvent d e = true -> carriesBuffer w e.
Proof. intros H d' cl q r E. subst. discriminate H. Qed.

Lemma connectEvent_carriesSettings d st e :
  connectEvent d e = true -> carriesSettings st e.
Proof. intros H d' cl q r E. subst. discriminate H. Qed.

Lemma connectEvent_observesCount d n e :
  connectEvent d e = true -> observesCount n e.
Proof. intros H d' m E. subst. discriminate H. Qed.

(** Every send of a call carries the buffer's input and the settings chosen
    for the flush; the count observed is the buffer's. *)
Lemma operation_payload w settings maxAttempts attempts clk dw
  o att' clk' dw' evs :
  operation env w settings maxAttempts attempts clk dw
  = (o, att', clk', dw', evs) ->
  Forall (carriesBuffer w) evs
  /\ Forall (carriesSettings settings) evs
  /\ Forall (observesCount (FlowCount (bf w))) evs.
Proof.
  op_cases w settings clk dw; (split; [|split]);
    ev_forall ltac:(
      first [ eapply Forall_impl; [|exact F1]; intros ? HH; cbv beta in HH;
              first [ eapply connectEvent_carriesBuffer; exact HH
                    | eapply connectEvent_carriesSettings; exact HH
                    | eapply connectEvent_observesCount; exact HH ]
            | intros ? ? ? ? E; inversion E; subst; simpl; auto
            | intros ? ? E; inversion E; subst; simpl; auto ]).
Qed.

Local Ltac ev_count F1 :=
  unfold serializations, sends, attemptsOf, writesOf, exceededOf;
  repeat first [rewrite count_cons | rewrite count_app | rewrite count_nil];
  rewrite ?(count_zero _ _ _ (connect_no_ProtoInput _) F1),
          ?(count_zero _ _ _ (connect_no_Do _) F1),
          ?(count_zero _ _ _ (connect_no_Attempt _ _) F1),
          ?(count_zero _ _ _ (connect_no_Write _ _) F1),
          ?(count_zero _ _ _ (connect_no_Exceeded _ _) F1);
  simpl; rewrite ?String.eqb_refl; simpl.

(** What one call of the closure counts for: either the retry budget is
    spent, and the call is no write attempt but the one increment of the
    retries-exceeded counter and a permanent error; or it is one write
    attempt, which never ends with a permanent error. *)
Lemma operation_counts w settings maxAttempts attempts clk dw
  o att' clk' dw' evs :
  operation env w settings maxAttempts attempts clk dw
  = (o, att', clk', dw', evs) ->
  let exhausted := (0 <? maxAttempts) && (maxAttempts <? to_int (attempts + 1)) in
  attemptsOf (name dw) evs = (if exhausted then 0 else 1)%nat
  /\ exceededOf (name dw) evs = (if exhausted then 1 else 0)%nat
  /\ (exhausted = true ->
      o = Returned (Some (PermanentError
                            (MaxRetriesError maxAttempts (name dw))))
      /\ clk' = clk /\ dw' = dw)
  /\ (exhausted = false ->
      o = Returned None \/ o = Panicked
      \/ exists code, o = Returned (Some (NetError code)))
  /\ writesOf (name dw) evs
     = (match o with Returned None => 1 | _ => 0 end)%nat
  /\ (o <> Panicked -> serializations evs = (2 * sends evs)%nat).
Proof.
  intros H. cbv zeta. revert H.
  op_cases w settings clk dw;
    try (apply connectDestination_error in CD; destruct CD as [code0 ->]);
    repeat split; try (intros; discriminate); try ev_count F1;
    try reflexivity; try congruence; eauto.
Qed.

Local Ltac retry_sleep w st m a1 c1 d1 IH :=
  destruct (ctx_Done env c1) eqn:D1;
  [ intros H; inversion H; subst; clear H
  | destruct (ctx_Done env (S c1)) eqn:D2;
    [ intros H; inversion H; subst; clear H
    | match goal with
      | |- context [Retry env ?f w st m ?x ?y ?z] =>
        destruct (Retry env f w st m x y z) as [[[o2 c2] d2] e2] eqn:RE
      end;
      intros H; inversion H; subst; clear H;
      match goal with
      | HRE : Retry env _ w st m _ _ _ = _ |- _ =>
        pose proof (IH _ _ _ _ _ _ _ HRE) as IHRE
      end ] ].

Local Ltac retry_cases w st m a clk dw IH :=
  simpl;
  destruct (operation env w st m a clk dw) as [[[[oo a1] c1] d1] e1] eqn:OP;
  pose proof (operation_inv _ _ _ _ _ _ _ _ _ _ _ OP)
    as (S1 & F1 & L1 & R1 & C1 & A1);
  destruct oo as [[[code| mx nm | | pe]|]| |];
  [ retry_sleep w st m a1 c1 d1 IH
  | retry_sleep w st m a1 c1 d1 IH
  | retry_sleep w st m a1 c1 d1 IH
  | intros H; inversion H; subst; clear H
  | intros H; inversion H; subst; clear H
  | intros H; inversion H; subst; clear H
  | congruence ].

(** The retry loop keeps the writer's configuration and labels its events
    with the writer's name; every send carries the buffer and the settings
    of the flush; the buffer is read twice per send. *)
Lemma Retry_inv w st m fuel : forall a clk dw o clk' dw' evs,
  Retry env fuel w st m a clk dw = (o, clk', dw', evs) ->
  same_static dw dw'
  /\ Forall (fun e => taskEvent (name dw) e = true) evs
  /\ (clk <= clk')%nat
  /\ (conn_in_servers dw -> conn_in_servers dw')
  /\ Forall (carriesBuffer w) evs
  /\ Forall (carriesSettings st) evs
  /\ Forall (observesCount (FlowCount (bf w))) evs
  /\ (o <> Panicked -> serializations evs = (2 * sends evs)%nat).
Proof.
  induction fuel as [|fuel IH]; intros a clk dw o clk' dw' evs.
  - simpl. intros H. inversion H; subst.
    repeat split; auto using same_static_refl.
  - retry_cases w st m a clk dw IH;
      pose proof (operation_payload _ _ _ _ _ _ _ _ _ _ _ OP)
        as (P1 & P2 & P3);
      pose proof (operation_counts _ _ _ _ _ _ _ _ _ _ _ OP)
        as (_ & _ & _ & _ & _ & N1);
      try (destruct IHRE as (S2 & F2 & L2 & C2 & Q1 & Q2 & Q3 & N2);
           assert (EN : name d1 = name dw) by apply S1; rewrite EN in F2);
      (split; [first [exact S1 | eapply same_static_trans; eassumption]|]);
      (split; [ev_forall ltac:(
                 first [assumption | simpl; apply String.eqb_refl])|]);
      (split; [lia|]); (split; [tauto|]);
      (split; [ev_forall ltac:(
                 first [assumption | intros ? ? ? ? E; discriminate E])|]);
      (split; [ev_forall ltac:(
                 first [assumption | intros ? ? ? ? E; discriminate E])|]);
      (split; [ev_forall ltac:(
                 first [assumption | intros ? ? E; discriminate E])|]);
      intros NP; unfold serializations, sends in *;
      repeat first [rewrite count_cons | rewrite count_app | rewrite count_nil];
      simpl; try (exfalso; apply NP; reflexivity);
      try rewrite N1 by discriminate; try rewrite N2 by exact NP; lia.
Qed.

(** The two kinds of call of the closure, with what each counts for. *)
Lemma operation_classify w settings m a clk dw oo a1 c1 d1 e1 :
  operation env w settings m a clk dw = (oo, a1, c1, d1, e1) ->
  ((0 <? m) && (m <? to_int (a + 1)) = true
   /\ oo = Returned (Some (PermanentError (MaxRetriesError m (name dw))))
   /\ attemptsOf (name dw) e1 = 0%nat
   /\ exceededOf (name dw) e1 = 1%nat
   /\ writesOf (name dw) e1 = 0%nat
   /\ c1 = clk /\ d1 = dw)
  \/ ((0 <? m) && (m <? to_int (a + 1)) = false
      /\ attemptsOf (name dw) e1 = 1%nat
      /\ exceededOf (name dw) e1 = 0%nat
      /\ ((oo = Returned None /\ writesOf (name dw) e1 = 1%nat)
          \/ (oo = Panicked /\ writesOf (name dw) e1 = 0%nat)
          \/ (exists code, oo = Returned (Some (NetError code))
                           /\ writesOf (name dw) e1 = 0%nat))).
Proof.
  intros OP.
  pose proof (operation_counts _ _ _ _ _ _ _ _ _ _ _ OP) as HC.
  cbv zeta in HC. destruct HC as (NA & NE & X1 & X2 & NW & _).
  destruct ((0 <? m) && (m <? to_int (a + 1))).
  - left. destruct (X1 eq_refl) as (-> & -> & ->).
    repeat split; assumption.
  - right. repeat split; try assumption.
    destruct (X2 eq_refl) as [->|[->|(code & ->)]]; eauto 6.
Qed.

Local Ltac retry_kinds w st m a clk dw IH :=
  simpl;
  destruct (operation env w st m a clk dw) as [[[[oo a1] c1] d1] e1] eqn:OP;
  pose proof (operation_inv _ _ _ _ _ _ _ _ _ _ _ OP)
    as (S1 & F1 & L1 & R1 & C1 & A1);
  destruct (operation_classify _ _ _ _ _ _ _ _ _ _ _ OP)
    as [(G & OO & NA & NE & NW & EC & ED)
       |(G & NA & NE & [(OO & NW)|[(OO & NW)|(code & OO & NW)]])];
  subst oo;
  [ intros H; inversion H; subst; clear H
  | intros H; inversion H; subst; clear H
  | intros H; inversion H; subst; clear H
  | retry_sleep w st m a1 c1 d1 IH ].

Local Ltac count_step :=
  unfold serializations, sends, attemptsOf, writesOf, exceededOf in *;
  repeat first [rewrite count_cons | rewrite count_app | rewrite count_nil];
  simpl.

(** How the retry loop ends, and what it counts for: a successful write
    exactly when it returns nil, an increment of the retries-exceeded
    counter exactly when it returns the retry-exhaustion error. *)
Lemma Retry_outcome w st m fuel : forall a clk dw o clk' dw' evs,
  Retry env fuel w st m a clk dw = (o, clk', dw', evs) ->
  (o = Running \/ o = Panicked \/ o = Returned None
   \/ o = Returned (Some ContextError)
   \/ (0 < m /\ o = Returned (Some (MaxRetriesError m (name dw)))))
  /\ writesOf (name dw) evs = (match o with Returned None => 1 | _ => 0 end)%nat
  /\ exceededOf (name dw) evs
     = (match o with
        | Returned (Some (MaxRetriesError _ _)) => 1
        | _ => 0
        end)%nat.
Proof.
  induction fuel as [|fuel IH]; intros a clk dw o clk' dw' evs.
  - simpl. intros H. inversion H; subst. auto.
  - retry_kinds w st m a clk dw IH.
    + apply andb_true_iff in G. destruct G as [G _]. apply Z.ltb_lt in G.
      repeat split; auto 6.
    + repeat split; auto.
    + repeat split; auto.
    + repeat split; auto 6.
    + count_step. rewrite NW, NE. repeat split; auto 6.
    + destruct IHRE as (O2 & W2 & E2).
      assert (EN : name d1 = name dw) by apply S1. rewrite EN in *.
      count_step. rewrite NW, NE, W2, E2. simpl. repeat split; auto.
Qed.

(** With a retry budget [m] the loop makes at most [m] write attempts and
    ends within [m + 1] calls of the closure. *)
Lemma Retry_bounded w st m fuel : forall a clk dw o clk' dw' evs,
  0 < m < max_int ->
  Retry env fuel w st m a clk dw = (o, clk', dw', evs) ->
  0 <= a <= m ->
  Z.of_nat (attemptsOf (name dw) evs) <= m - a
  /\ (m - a < Z.of_nat fuel -> o <> Running).
Proof.
  intros a clk dw o clk' dw' evs Hm. revert a clk dw o clk' dw' evs.
  induction fuel as [|fuel IH]; intros a clk dw o clk' dw' evs.
  - simpl. intros H Ha. inversion H; subst. simpl. split; lia.
  - intros H Ha. revert H.
    assert (TI : to_int (a + 1) = a + 1)
      by (apply to_int_id; unfold is_int, min_int, max_int in *; lia).
    retry_kinds w st m a clk dw IH;
      try (rewrite TI in G; apply andb_false_iff in G;
           rewrite Z.ltb_ge, Z.ltb_ge in G);
      try (split; [count_step; try rewrite NA; simpl; lia|discriminate]).
    specialize (IHRE ltac:(lia)). destruct IHRE as (B1 & B2).
    assert (EN : name d1 = name dw) by apply S1. rewrite EN in *.
    split.
    + count_step. rewrite NA. simpl.
      unfold attemptsOf in B1. lia.
    + intros Hf. apply B2. lia.
Qed.

(** Without a retry budget ([maxAttempts = -1]) the loop never ends with
    the retry-exhaustion error and never counts one. *)
Lemma Retry_unbounded w st fuel a clk dw o clk' dw' evs :
  Retry env fuel w st (-1) a clk dw = (o, clk', dw', evs) ->
  (forall mx nm, o <> Returned (Some (MaxRetriesError mx nm)))
  /\ exceededOf (name dw) evs = 0%nat.
Proof.
  intros H. apply Retry_outcome in H.
  destruct H as ([->|[->|[->|[->|(M & _)]]]] & _ & E); try lia;
    split; try exact E; intros mx nm; discriminate.
Qed.

(** *** Permutations of indices *)

Lemma perm_ok_bounds t n :
  perm_ok env ->
  Forall (fun i => (i < n)%nat) (rand_Perm env t n)
  /\ (n <> 0%nat -> rand_Perm env t n <> []).
Proof.
  intros P. specialize (P t n). split.
  - apply Forall_forall. intros i Hi.
    eapply Permutation_in in Hi; [|exact P].
    apply in_seq in Hi. lia.
  - intros Hn E. rewrite E in P. apply Permutation_nil in P.
    destruct n; [congruence|discriminate].
Qed.

Lemma nth_error_bound (l : list string) (i : nat) :
  (i < List.length l)%nat -> exists a, nth_error l i = Some a /\ In a l.
Proof.
  intros H. destruct (nth_error l i) as [a|] eqn:E.
  - exists a. split; [reflexivity|]. eapply nth_error_In; eauto.
  - apply nth_error_None in E. lia.
Qed.

(** *** A destination that is down *)

Lemma tryServers_dials_fail w perm : forall clk dw lastErr o clk' dw' evs,
  Forall (fun i => (i < List.length (servers dw))%nat) perm ->
  dials_fail env dw ->
  tryServers env w perm clk dw lastErr = (o, clk', dw', evs) ->
  conn dw' = conn dw
  /\ ((perm = [] /\ o = Returned lastErr)
      \/ (perm <> [] /\ exists code, o = Returned (Some (NetError code)))).
Proof.
  induction perm as [|idx rest IH]; intros clk dw lastErr o clk' dw' evs B DF;
    simpl.
  - intros H. inversion H; subst. auto.
  - inversion B as [|? ? Bi Br]; subst.
    destruct (nth_error_bound _ _ Bi) as (addr & -> & IA).
    destruct (ch_Dial env clk _) as [code|] eqn:D.
    2:{ exfalso. eapply DF; [|exact D]. exact IA. }
    destruct (tryServers env w rest (S clk) _ _) as [[[o1 c1] d1] e1] eqn:T.
    intros H. inversion H; subst; clear H.
    apply IH in T; [|exact Br|exact DF].
    destruct T as (C & [(-> & ->)|(N & code' & ->)]).
    + split; [exact C|]. right. split; [discriminate|eauto].
    + split; [exact C|]. right. split; [discriminate|eauto].
Qed.

Lemma servers_length_nonzero (dw : destinationWriter) :
  servers dw <> [] -> List.length (servers dw) <> 0%nat.
Proof. destruct (servers dw); [congruence|discriminate]. Qed.

Lemma connectDestination_down w clk dw o clk' dw' evs :
  perm_ok env -> down env dw ->
  connectDestination env w clk dw = (o, clk', dw', evs) ->
  (exists code, o = Returned (Some (NetError code)))
  \/ (o = Returned None
      /\ exists cl, conn dw' = Some cl /\ In (server cl) (servers dw)).
Proof.
  intros P (NE & DF & SF & CS). unfold connectDestination.
  destruct (conn dw) as [cl|] eqn:C.
  - destruct (client_Ping env clk cl) as [code|].
    + destruct (tryServers env w _ (S clk) _ _) as [[[o1 c1] d1] e1] eqn:T.
      intros H. inversion H; subst; clear H.
      destruct (perm_ok_bounds (S clk) (List.length (servers dw)) P)
        as (B & N).
      apply tryServers_dials_fail in T; [|exact B|exact DF].
      destruct T as (_ & [(E & _)|(_ & X)]); [|left; exact X].
      exfalso. apply N; [|exact E]. now apply servers_length_nonzero.
    + intros H. inversion H; subst; clear H.
      right. split; [reflexivity|]. exists cl. auto.
  - intros T.
    destruct (perm_ok_bounds clk (List.length (servers dw)) P) as (B & N).
    apply tryServers_dials_fail in T; [|exact B|exact DF].
    destruct T as (_ & [(E & _)|(_ & X)]); [|left; exact X].
    exfalso. apply N; [|exact E]. now apply servers_length_nonzero.
Qed.

Lemma down_static dw dw' :
  same_static dw dw' -> conn_in_servers dw' -> down env dw -> down env dw'.
Proof.
  intros (_ & S & _) C (NE & DF & SF & _).
  unfold down, dials_fail, sends_fail. rewrite S. auto.
Qed.

(** A write attempt on a destination that is down fails with a network
    error, and the destination is still down after it. *)
Lemma operation_down w st m a clk dw oo a1 c1 d1 e1 :
  perm_ok env -> down env dw ->
  operation env w st m a clk dw = (oo, a1, c1, d1, e1) ->
  (0 <? m) && (m <? to_int (a + 1)) = false ->
  (exists code, oo = Returned (Some (NetError code))) /\ down env d1.
Proof.
  intros P D OP G.
  pose proof (operation_inv _ _ _ _ _ _ _ _ _ _ _ OP)
    as (S1 & _ & _ & _ & C1 & _).
  split; [|eapply down_static; [exact S1|apply C1; apply D|exact D]].
  revert OP. unfold operation. rewrite G.
  destruct (connectDestination env w clk dw) as [[[oc c2] d2] e2] eqn:CD.
  destruct (connectDestination_down _ _ _ _ _ _ _ P D CD)
    as [(code & ->)|(-> & cl & CN & I)].
  - intros H. inversion H; subst. eauto.
  - rewrite CN. destruct (client_Do env c2 cl _) as [code|] eqn:DO.
    + intros H. inversion H; subst. eauto.
    + exfalso. destruct D as (_ & _ & SF & _). eapply SF; eauto.
Qed.

(** On a destination that is down and without a retry budget, as long as
    the context is not cancelled the loop keeps retrying: after any number
    of calls it has made as many write attempts and has not returned. *)
Lemma Retry_down_unbounded w st fuel : forall a clk dw o clk' dw' evs,
  perm_ok env -> never_cancelled env -> down env dw ->
  Retry env fuel w st (-1) a clk dw = (o, clk', dw', evs) ->
  o = Running /\ attemptsOf (name dw) evs = fuel.
Proof.
  induction fuel as [|fuel IH]; intros a clk dw o clk' dw' evs P NC D.
  - simpl. intros H. inversion H; subst. auto.
  - simpl.
    destruct (operation env w st (-1) a clk dw)
      as [[[[oo a1] c1] d1] e1] eqn:OP.
    destruct (operation_down _ _ _ _ _ _ _ _ _ _ _ P D OP eq_refl)
      as ((code & ->) & D1).
    destruct (operation_classify _ _ _ _ _ _ _ _ _ _ _ OP)
      as [(G & _)|(_ & NA & _)]; [discriminate G|].
    pose proof (operation_inv _ _ _ _ _ _ _ _ _ _ _ OP) as (S1 & _).
    rewrite !NC.
    destruct (Retry env fuel w st (-1) a1 (S c1) d1)
      as [[[o2 c2] d2] e2] eqn:RE.
    intros H. inversion H; subst; clear H.
    apply IH in RE; auto. destruct RE as (-> & N2).
    assert (EN : name d1 = name dw) by apply S1. rewrite EN in *.
    split; [reflexivity|]. count_step. rewrite NA.
    unfold attemptsOf in N2. rewrite N2. reflexivity.
Qed.

(** Once the context is cancelled the same loop returns [ctx.Err()]. *)
Lemma Retry_down_cancelled w st T n : forall a clk dw,
  perm_ok env -> (forall t, (T <= t)%nat -> ctx_Done env t = true) ->
  down env dw -> (T <= clk + n)%nat ->
  outcomeOf (Retry env (S n) w st (-1) a clk dw)
  = Returned (Some ContextError).
Proof.
  induction n as [|n IH]; intros a clk dw P CT D Hn.
  - simpl.
    destruct (operation env w st (-1) a clk dw)
      as [[[[oo a1] c1] d1] e1] eqn:OP.
    destruct (operation_down _ _ _ _ _ _ _ _ _ _ _ P D OP eq_refl)
      as ((code & ->) & D1).
    pose proof (operation_inv _ _ _ _ _ _ _ _ _ _ _ OP)
      as (_ & _ & L1 & _).
    rewrite CT by lia. reflexivity.
  - remember (S n) as k eqn:Ek in |- *. simpl.
    destruct (operation env w st (-1) a clk dw)
      as [[[[oo a1] c1] d1] e1] eqn:OP.
    destruct (operation_down _ _ _ _ _ _ _ _ _ _ _ P D OP eq_refl)
      as ((code & ->) & D1).
    pose proof (operation_inv _ _ _ _ _ _ _ _ _ _ _ OP)
      as (_ & _ & L1 & _).
    destruct (ctx_Done env c1); [reflexivity|].
    destruct (ctx_Done env (S c1)); [reflexivity|].
    specialize (IH a1 (S c1) d1 P CT D1 ltac:(lia)). subst k.
    destruct (Retry env (S n) w st (-1) a1 (S c1) d1) as [[[o2 c2] d2] e2].
    exact IH.
Qed.

(** On a destination that is down, a loop with the retry budget [m] makes
    exactly the [m] attempts left to it, then counts one exhaustion and
    returns the retry-exhaustion error, provided the context is not
    cancelled. *)
Lemma Retry_down_bounded w st m fuel : forall a clk dw o clk' dw' evs,
  perm_ok env -> never_cancelled env -> down env dw ->
  0 < m < max_int -> 0 <= a <= m -> m - a < Z.of_nat fuel ->
  Retry env fuel w st m a clk dw = (o, clk', dw', evs) ->
  o = Returned (Some (MaxRetriesError m (name dw)))
  /\ Z.of_nat (attemptsOf (name dw) evs) = m - a
  /\ exceededOf (name dw) evs = 1%nat
  /\ writesOf (name dw) evs = 0%nat.
Proof.
  induction fuel as [|fuel IH]; intros a clk dw o clk' dw' evs P NC D Hm Ha Hf;
    [lia|].
  assert (TI : to_int (a + 1) = a + 1)
    by (apply to_int_id; unfold is_int, min_int, max_int in *; lia).
  simpl.
  destruct (operation env w st m a clk dw)
    as [[[[oo a1] c1] d1] e1] eqn:OP.
  pose proof (operation_inv _ _ _ _ _ _ _ _ _ _ _ OP) as (S1 & _ & _ & _ & _ & A1).
  destruct (operation_classify _ _ _ _ _ _ _ _ _ _ _ OP)
    as [(G & -> & NA & NE & NW & _)|(G & NA & NE & _)].
  - intros H. inversion H; subst; clear H.
    rewrite TI in G. apply andb_true_iff in G.
    rewrite !Z.ltb_lt in G. rewrite NA. repeat split; auto. simpl. lia.
  - destruct (operation_down _ _ _ _ _ _ _ _ _ _ _ P D OP G)
      as ((code & ->) & D1).
    rewrite TI in G. apply andb_false_iff in G. rewrite !Z.ltb_ge in G.
    rewrite !NC.
    destruct (Retry env fuel w st m a1 (S c1) d1)
      as [[[o2 c2] d2] e2] eqn:RE.
    intros H. inversion H; subst; clear H.
    apply IH in RE; auto; try lia.
    destruct RE as (-> & N2 & E2 & W2).
    assert (EN : name d1 = name dw) by apply S1. rewrite EN in *.
    pose proof (operation_classify _ _ _ _ _ _ _ _ _ _ _ OP)
      as [(_ & X & _)|(_ & _ & _ & [(X & _)|[(X & _)|(code' & _ & NW)]])];
      try discriminate X.
    split; [reflexivity|]. count_step.
    rewrite NA, NE, NW. unfold attemptsOf, exceededOf, writesOf in *.
    rewrite E2, W2. simpl. repeat split; lia.
Qed.

(** *** A destination that is up *)

Lemma tryServers_up w perm clk dw lastErr o clk' dw' evs :
  perm <> [] ->
  Forall (fun i => (i < List.length (servers dw))%nat) perm ->
  always_succeeds env dw ->
  tryServers env w perm clk dw lastErr = (o, clk', dw', evs) ->
  o = Returned None
  /\ exists cl, conn dw' = Some cl /\ In (server cl) (servers dw).
Proof.
  intros N B (AD & AP & _).
  destruct perm as [|idx rest]; [congruence|]. simpl.
  inversion B as [|? ? Bi Br]; subst.
  destruct (nth_error_bound _ _ Bi) as (addr & -> & IA).
  rewrite AD by exact IA. rewrite AP by exact IA.
  intros H. inversion H; subst. split; [reflexivity|].
  eexists. split; [reflexivity|exact IA].
Qed.

Lemma connectDestination_up w clk dw o clk' dw' evs :
  perm_ok env -> up env dw ->
  connectDestination env w clk dw = (o, clk', dw', evs) ->
  o = Returned None
  /\ exists cl, conn dw' = Some cl /\ In (server cl) (servers dw).
Proof.
  intros P (NE & AS & CS). unfold connectDestination.
  destruct (conn dw) as [cl|] eqn:C.
  - destruct AS as (_ & AP & _). rewrite AP by (apply CS; exact C).
    intros H. inversion H; subst. split; [reflexivity|].
    exists cl. auto.
  - destruct (perm_ok_bounds clk (List.length (servers dw)) P) as (B & N).
    apply tryServers_up; auto.
    apply N. now apply servers_length_nonzero.
Qed.

(** A write attempt on a destination that is up returns nil. *)
Lemma operation_up w st m a clk dw oo a1 c1 d1 e1 :
  perm_ok env -> up env dw ->
  operation env w st m a clk dw = (oo, a1, c1, d1, e1) ->
  (0 <? m) && (m <? to_int (a + 1)) = false ->
  oo = Returned None.
Proof.
  intros P U OP G. revert OP. unfold operation. rewrite G.
  destruct (connectDestination env w clk dw) as [[[oc c2] d2] e2] eqn:CD.
  destruct (connectDestination_up _ _ _ _ _ _ _ P U CD)
    as (-> & cl & CN & I).
  rewrite CN. destruct U as (_ & (_ & _ & AD) & _).
  rewrite AD by exact I. intros H. inversion H; subst. reflexivity.
Qed.

(** The task of a destination that is up: one attempt, one write. *)
Lemma flushSingleDestination_up fuel w clk dw :
  perm_ok env -> up env dw ->
  exists clk' dw' evs,
    flushSingleDestination env K (S fuel) w clk dw
    = (Returned None, clk', dw', evs)
    /\ attemptsOf (name dw) evs = 1%nat
    /\ writesOf (name dw) evs = 1%nat
    /\ exceededOf (name dw) evs = 0%nat.
Proof.
  intros P U. unfold flushSingleDestination.
  set (m := if maxRetries dw =? 0 then -1 else maxRetries dw).
  set (st := insertSettings K w dw).
  assert (G : (0 <? m) && (m <? to_int (0 + 1)) = false).
  { change (to_int (0 + 1)) with 1.
    apply andb_false_iff. rewrite !Z.ltb_ge. lia. }
  destruct (Retry env (S fuel) w st m 0 clk dw) as [[[o c1] d1] e1] eqn:RE.
  pose proof (Retry_outcome _ _ _ _ _ _ _ _ _ _ _ RE) as (_ & W & E).
  revert RE. simpl.
  destruct (operation env w st m 0 clk dw)
    as [[[[oo a2] c2] d2] e2] eqn:OP.
  pose proof (operation_up _ _ _ _ _ _ _ _ _ _ _ P U OP G) as ->.
  destruct (operation_classify _ _ _ _ _ _ _ _ _ _ _ OP)
    as [(G' & _)|(_ & NA & _)]; [congruence|].
  intros H. inversion H; subst; clear H.
  exists c1, d1, e1. auto.
Qed.

(** The task of a destination that is down, with a retry budget. *)
Lemma flushSingleDestination_down fuel w clk dw :
  perm_ok env -> never_cancelled env -> down env dw ->
  0 < maxRetries dw < max_int -> maxRetries dw < Z.of_nat fuel ->
  exists clk' dw' evs,
    flushSingleDestination env K fuel w clk dw
    = (Returned (Some (MaxRetriesError (maxRetries dw) (name dw))),
       clk', dw', evs)
    /\ Z.of_nat (attemptsOf (name dw) evs) = maxRetries dw
    /\ writesOf (name dw) evs = 0%nat
    /\ exceededOf (name dw) evs = 1%nat.
Proof.
  intros P NC D Hm Hf. unfold flushSingleDestination.
  destruct (Z.eqb_spec (maxRetries dw) 0) as [E|_]; [lia|].
  destruct (Retry env fuel w _ (maxRetries dw) 0 clk dw)
    as [[[o c1] d1] e1] eqn:RE.
  apply Retry_down_bounded in RE; auto; try lia.
  destruct RE as (-> & NA & NE & NW).
  exists c1, d1, e1. repeat split; auto. lia.
Qed.

(** *** One task *)

Lemma flushSingleDestination_inv fuel w clk dw o clk' dw' evs :
  flushSingleDestination env K fuel w clk dw = (o, clk', dw', evs) ->
  same_static dw dw'
  /\ Forall (fun e => taskEvent (name dw) e = true) evs
  /\ (clk <= clk')%nat
  /\ (conn_in_servers dw -> conn_in_servers dw')
  /\ Forall (carriesBuffer w) evs
  /\ Forall (carriesSettings (insertSettings K w dw)) evs
  /\ Forall (observesCount (FlowCount (bf w))) evs
  /\ (o <> Panicked -> serializations evs = (2 * sends evs)%nat).
Proof. unfold flushSingleDestination. apply Retry_inv. Qed.

End TaskFacts.

(** ** Flush *)

Section FlushFacts.

Variable env : Env.
Variable K : positive.

Lemma flushEvent_head dw dws e :
  taskEvent (name dw) e = true -> flushEvent (dw :: dws) e.
Proof. intros H. exists dw. split; [left; reflexivity|exact H]. Qed.

Lemma flushEvent_tail dw dws e : flushEvent dws e -> flushEvent (dw :: dws) e.
Proof. intros (d & I & H). exists d. split; [right; exact I|exact H]. Qed.

Lemma join_Returned first o os e :
  join first o os = Returned e ->
  exists e1 e2, o = Returned e1 /\ os = Returned e2
    /\ (e = None <-> e1 = None /\ e2 = None)
    /\ (e = e1 \/ e = e2).
Proof.
  unfold join. destruct os as [e2| |]; try discriminate.
  destruct o as [[x|]| |]; try discriminate;
    [destruct e2 as [y|]; [destruct first|]|];
    intros H; inversion H; subst;
    eexists _, _; (split; [reflexivity|]); (split; [reflexivity|]);
    (split; [split; [intros X; try discriminate X; auto
                    |intros (X1 & X2); try discriminate X1; auto]|auto]).
Qed.

Lemma join_not_Panicked first o os :
  join first o os <> Panicked -> os <> Panicked.
Proof. unfold join. destruct os; congruence. Qed.

(** The tasks of a flush keep the writers' configuration, produce events of
    the writers only, and every send among them carries the one buffer. *)
Lemma errgroup_inv fuel w dws : forall clk o clk' dws' evs,
  errgroup env K fuel w clk dws = (o, clk', dws', evs) ->
  Forall2 same_static dws dws'
  /\ Forall (flushEvent dws) evs
  /\ Forall (carriesBuffer w) evs
  /\ Forall (observesCount (FlowCount (bf w))) evs
  /\ (o <> Panicked -> serializations evs = (2 * sends evs)%nat).
Proof.
  induction dws as [|dw rest IH]; intros clk o clk' dws' evs; simpl.
  - intros H. inversion H; subst. repeat split; auto.
  - destruct (flushSingleDestination env K fuel w clk dw)
      as [[[o1 c1] d1] e1] eqn:F.
    pose proof (flushSingleDestination_inv _ _ _ _ _ _ _ _ _ _ F)
      as (S1 & T1 & _ & _ & B1 & _ & O1 & N1).
    assert (T1' : Forall (flushEvent (dw :: rest)) e1).
    { eapply Forall_impl; [|exact T1]. intros e. apply flushEvent_head. }
    assert (SR : Forall2 same_static rest rest).
    { clear. induction rest; constructor; auto using same_static_refl. }
    destruct o1 as [x| |].
    + destruct (errgroup env K fuel w c1 rest) as [[[os c2] r2] e2] eqn:G.
      intros H. inversion H; subst; clear H.
      apply IH in G. destruct G as (S2 & T2 & B2 & O2 & N2).
      split; [constructor; assumption|].
      split; [apply Forall_app; split; [exact T1'|];
              eapply Forall_impl; [|exact T2];
              intros e; apply flushEvent_tail|].
      split; [apply Forall_app; auto|].
      split; [apply Forall_app; auto|].
      intros NP. unfold serializations, sends in *.
      rewrite !count_app, N1 by discriminate.
      rewrite N2 by (eapply join_not_Panicked; exact NP). lia.
    + intros H. inversion H; subst; clear H.
      repeat split; auto; congruence.
    + destruct (errgroup env K fuel w c1 rest) as [[[os c2] r2] e2] eqn:G.
      intros H. inversion H; subst; clear H.
      apply IH in G. destruct G as (S2 & T2 & B2 & O2 & N2).
      split; [constructor; assumption|].
      split; [apply Forall_app; split; [exact T1'|];
              eapply Forall_impl; [|exact T2];
              intros e; apply flushEvent_tail|].
      split; [apply Forall_app; auto|].
      split; [apply Forall_app; auto|].
      intros NP. unfold serializations, sends in *.
      rewrite !count_app, N1 by discriminate.
      rewrite N2 by (eapply join_not_Panicked; exact NP). lia.
Qed.

(** When [g.Wait()] returns, every task has returned, and the events of
    the group are those of the tasks. *)
Lemma errgroup_settled fuel w dws : forall clk e clk' dws' evs,
  errgroup env K fuel w clk dws = (Returned e, clk', dws', evs) ->
  Forall settled (taskResults env K fuel w clk dws)
  /\ evs = List.concat (map snd (taskResults env K fuel w clk dws)).
Proof.
  induction dws as [|dw rest IH]; intros clk e clk' dws' evs; simpl.
  - intros H. inversion H; subst. auto.
  - destruct (flushSingleDestination env K fuel w clk dw)
      as [[[o1 c1] d1] e1] eqn:F.
    destruct o1 as [x| |]; try discriminate.
    + destruct (errgroup env K fuel w c1 rest) as [[[os c2] r2] e2] eqn:G.
      intros H. inversion H; subst; clear H.
      match goal with
      | J : join _ _ _ = _ |- _ =>
        apply join_Returned in J; destruct J as (y1 & y2 & _ & -> & _)
      end.
      apply IH in G. destruct G as (G1 & ->).
      split; [|reflexivity].
      constructor; [exists x; reflexivity|exact G1].
    + destruct (errgroup env K fuel w c1 rest) as [[[os c2] r2] e2] eqn:G.
      intros H. inversion H; subst; clear H.
      match goal with
      | J : join _ _ _ = _ |- _ =>
        apply join_Returned in J; destruct J as (y1 & y2 & X & _)
      end.
      discriminate X.
Qed.

Lemma taskEvent_other d d' e :
  d <> d' -> taskEvent d' e = true ->
  isAttemptOf d e = false /\ isWriteOf d e = false
  /\ isExceededOf d e = false.
Proof.
  intros N. assert (X : forall x, String.eqb d' x = true -> String.eqb d x = false).
  { intros x E. apply String.eqb_eq in E. subst x.
    apply String.eqb_neq. exact N. }
  destruct e as [| | | | | | | ? ? ? [?|] | | |[]]; simpl; intros H;
    try discriminate H; repeat split; auto.
Qed.

Lemma taskEvent_no_Clear d e : taskEvent d e = true -> isClear e = false.
Proof. destruct e; simpl; auto; discriminate. Qed.

Lemma flushEvent_other d dws evs :
  ~ In d (map name dws) -> Forall (flushEvent dws) evs ->
  attemptsOf d evs = 0%nat /\ writesOf d evs = 0%nat
  /\ exceededOf d evs = 0%nat.
Proof.
  intros N F. induction F as [|e l (dw & I & T) _ IH]; [auto|].
  assert (ND : d <> name dw).
  { intros ->. apply N. apply in_map. exact I. }
  destruct (taskEvent_other _ _ _ ND T) as (A & W & E).
  destruct IH as (IA & IW & IE).
  unfold attemptsOf, writesOf, exceededOf in *.
  rewrite !count_cons, A, W, E, IA, IW, IE. auto.
Qed.

Lemma flushEvent_no_Clear dws evs :
  Forall (flushEvent dws) evs -> count isClear evs = 0%nat.
Proof.
  intros F. induction F as [|e l (dw & _ & T) _ IH]; [reflexivity|].
  rewrite count_cons, IH, (taskEvent_no_Clear _ _ T). reflexivity.
Qed.

Lemma tally_app_other env0 dw dws evs evs' :
  ~ In (name dw) (map name dws) -> Forall (flushEvent dws) evs' ->
  tally env0 dw evs -> tally env0 dw (evs ++ evs').
Proof.
  intros N F T. destruct (flushEvent_other _ _ _ N F) as (A & W & E).
  unfold tally, attemptsOf, writesOf, exceededOf in *.
  rewrite !count_app, A, W, E, !Nat.add_0_r. exact T.
Qed.

Lemma tally_other_app env0 dw d evs evs' :
  name dw <> name d -> Forall (fun e => taskEvent (name d) e = true) evs ->
  tally env0 dw evs' -> tally env0 dw (evs ++ evs').
Proof.
  intros N F T.
  assert (Z0 : attemptsOf (name dw) evs = 0%nat
               /\ writesOf (name dw) evs = 0%nat
               /\ exceededOf (name dw) evs = 0%nat).
  { apply (flushEvent_other _ [d]).
    - simpl. intros [X|[]]. congruence.
    - eapply Forall_impl; [|exact F]. intros e. apply flushEvent_head. }
  destruct Z0 as (A & W & E).
  unfold tally, attemptsOf, writesOf, exceededOf in *.
  rewrite !count_app, A, W, E. exact T.
Qed.

(** A flush over writers that are up, or down with a retry budget: every
    task returns, and each counts for what its destination makes it. *)
Lemma errgroup_tally fuel w dws : forall clk,
  perm_ok env -> never_cancelled env ->
  NoDup (map name dws) ->
  Forall (upOrBounded env (S fuel)) dws ->
  exists e clk' dws' evs,
    errgroup env K (S fuel) w clk dws = (Returned e, clk', dws', evs)
    /\ forall dw, In dw dws -> tally env dw evs.
Proof.
  induction dws as [|dw rest IH]; intros clk P NC ND UB.
  - exists None, clk, [], []. split; [reflexivity|]. intros dw [].
  - inversion ND as [|? ? NI ND']; subst.
    inversion UB as [|? ? U UB']; subst.
    cbn [errgroup].
    assert (T1 : exists e1 c1 d1 ev1,
      flushSingleDestination env K (S fuel) w clk dw
      = (Returned e1, c1, d1, ev1) /\ tally env dw ev1).
    { destruct U as [U|(D & Hm & Hf)].
      - destruct (flushSingleDestination_up env K fuel w clk dw P U)
          as (c1 & d1 & ev1 & F & A & W & E).
        exists None, c1, d1, ev1. split; [exact F|]. left. auto.
      - destruct (flushSingleDestination_down env K (S fuel) w clk dw
                    P NC D Hm Hf) as (c1 & d1 & ev1 & F & A & W & E).
        eexists _, c1, d1, ev1. split; [exact F|]. right. auto. }
    destruct T1 as (e1 & c1 & d1 & ev1 & F & T).
    rewrite F.
    pose proof (flushSingleDestination_inv _ _ _ _ _ _ _ _ _ _ F)
      as (_ & TE & _).
    destruct (IH c1 P NC ND' UB') as (e2 & c2 & r2 & ev2 & G & TS).
    rewrite G.
    pose proof (errgroup_inv _ _ _ _ _ _ _ _ G) as (_ & FE & _).
    assert (J : exists e, join (first_done env c1) (Returned e1) (Returned e2)
                          = Returned e).
    { destruct e1, e2; simpl; try destruct (first_done env c1); eauto. }
    destruct J as (e & ->).
    exists e, c2, (d1 :: r2), (ev1 ++ ev2).
    split; [reflexivity|].
    intros x [<-|I].
    + eapply tally_app_other; eauto.
    + eapply tally_other_app; eauto.
      intros EQ. apply NI. rewrite <- EQ. apply in_map. exact I.
Qed.

End FlushFacts.

(** ** The example environments *)

Section ExampleFacts.

Import Examples.

Lemma net_perm_ok : perm_ok net.
Proof. intros t n. simpl. apply Permutation_sym, Permutation_rev. Qed.

Lemma netCancelled_perm_ok : perm_ok netCancelled.
Proof. intros t n. simpl. apply Permutation_sym, Permutation_rev. Qed.

Lemma net_never_cancelled : never_cancelled net.
Proof. intros t. reflexivity. Qed.

Lemma netCancelled_cancelled t : (5 <= t)%nat -> ctx_Done netCancelled t = true.
Proof. intros H. unfold netCancelled, ctx_Done. apply Nat.leb_le. exact H. Qed.

Lemma primaryWriter_up : up net primaryWriter.
Proof.
  split; [discriminate|]. split.
  - repeat split.
    + intros t o [E|[]]. simpl. rewrite <- E. reflexivity.
    + intros t cl q [E|[]]. simpl. rewrite <- E. reflexivity.
  - intros cl E. discriminate E.
Qed.

Lemma azureWriter_down : down net azureWriter.
Proof.
  split; [discriminate|]. repeat split.
  - intros t o [E|[]]. simpl. rewrite <- E. discriminate.
  - intros t cl q [E|[]]. simpl. rewrite <- E. discriminate.
  - intros cl E. discriminate E.
Qed.

Lemma stuckWriter_down : down net stuckWriter.
Proof.
  split; [discriminate|]. repeat split.
  - intros t o [E|[]]. simpl. rewrite <- E. discriminate.
  - intros t cl q [E|[]]. simpl. rewrite <- E. discriminate.
  - intros cl E. discriminate E.
Qed.

Lemma answers3_equally_often :
  equally_often (list_eq_dec Nat.eq_dec) answers3
    (fun p => Permutation p (seq 0 3)) 1.
Proof.
  split.
  - intros p I. unfold answers3 in I. simpl in I.
    destruct I as [<- | [<- | [<- | [<- | [<- | [<- | []]]]]]]; simpl.
    + apply Permutation_refl.
    + apply perm_skip, perm_swap.
    + apply perm_swap.
    + apply Permutation_sym, (Permutation_cons_app [1; 2] []%nat 0)%nat.
      apply Permutation_refl.
    + apply (Permutation_cons_app [0; 1] []%nat 2)%nat.
      apply Permutation_refl.
    + apply Permutation_sym. change [2; 1; 0]%nat with (rev [0; 1; 2]%nat).
      apply Permutation_rev.
  - intros p P.
    pose proof (Permutation_length P) as L.
    assert (ND : NoDup p).
    { eapply Permutation_NoDup; [apply Permutation_sym; exact P|].
      apply seq_NoDup. }
    assert (IN : forall x, In x p -> (x = 0 \/ x = 1 \/ x = 2)%nat).
    { intros x I. eapply Permutation_in in I; [|exact P].
      simpl in I. intuition auto. }
    destruct p as [|a [|b [|c [|]]]]; try discriminate L.
    assert (A : (a = 0 \/ a = 1 \/ a = 2)%nat) by (apply IN; simpl; auto).
    assert (B : (b = 0 \/ b = 1 \/ b = 2)%nat) by (apply IN; simpl; auto).
    assert (C : (c = 0 \/ c = 1 \/ c = 2)%nat) by (apply IN; simpl; auto).
    inversion ND as [|? ? N1 ND1]; subst.
    inversion ND1 as [|? ? N2 ND2]; subst.
    simpl in N1, N2.
    destruct A as [-> | [-> | ->]]; destruct B as [-> | [-> | ->]];
      destruct C as [-> | [-> | ->]];
      try reflexivity; exfalso; intuition auto.
Qed.

Lemma failoverWriter_NoDup : NoDup (servers failoverWriter).
Proof.
  unfold failoverWriter, newWriter, dest, db. simpl.
  repeat constructor; simpl; intuition discriminate.
Qed.

Lemma stuckWriter_down_cancelled : down netCancelled stuckWriter.
Proof.
  split; [discriminate|]. repeat split.
  - intros t o [E|[]]. simpl. rewrite <- E. discriminate.
  - intros t cl q [E|[]]. simpl. rewrite <- E. discriminate.
  - intros cl E. discriminate E.
Qed.

End ExampleFacts.

(** ** Events of a flush *)

Section FlushEvents.

Variable env : Env.
Variable K : positive.

Lemma taskEvent_no_waitTime d e : taskEvent d e = true -> isWaitTime e = false.
Proof. destruct e as [| | | | | | | | | |[]]; simpl; auto; discriminate. Qed.

Lemma flushEvent_no_waitTime dws evs :
  Forall (flushEvent dws) evs -> count isWaitTime evs = 0%nat.
Proof.
  intros F. induction F as [|e l (dw & _ & T) _ IH]; [reflexivity|].
  rewrite count_cons, IH, (taskEvent_no_waitTime _ _ T). reflexivity.
Qed.

(** What [Flush] does on a buffer that is not empty. *)
Lemma Flush_nonempty fuel clk w o clk' w' evs :
  FlowCount (bf w) <> 0 ->
  Flush env K fuel clk w = (o, clk', w', evs) ->
  exists og dws evg,
    errgroup env K fuel w clk (destWriters w) = (og, clk', dws, evg)
    /\ match og with
       | Returned err =>
         o = Returned tt
         /\ w' = set_bf (set_destWriters w dws) (Clear (bf w))
         /\ evs = evg
                  ++ match err with
                     | Some e =>
                       [EvLog (Some e) [] (logfields w [])
                          "one or more destinations failed"]
                     | None => []
                     end
                  ++ [EvClear]
       | Panicked => o = Panicked /\ w' = set_destWriters w dws /\ evs = evg
       | Running => o = Running /\ w' = set_destWriters w dws /\ evs = evg
       end.
Proof.
  intros NE. unfold Flush.
  destruct (Z.eqb_spec (FlowCount (bf w)) 0) as [E|_]; [contradiction|].
  destruct (errgroup env K fuel w clk (destWriters w))
    as [[[og c1] dws] evg].
  destruct og as [err| |]; intros H; inversion H; subst;
    eexists _, _, _; (split; [reflexivity|]); repeat split; reflexivity.
Qed.

Lemma Flush_no_waitTime fuel clk w :
  count isWaitTime (eventsOf (Flush env K fuel clk w)) = 0%nat.
Proof.
  destruct (Flush env K fuel clk w) as [[[o c1] w1] evs] eqn:F.
  unfold eventsOf. simpl.
  destruct (Z.eq_dec (FlowCount (bf w)) 0) as [E|NE].
  - unfold Flush in F. rewrite E in F. simpl in F.
    inversion F; subst. reflexivity.
  - destruct (Flush_nonempty _ _ _ _ _ _ _ NE F) as (og & dws & evg & G & X).
    pose proof (errgroup_inv _ _ _ _ _ _ _ _ _ _ G) as (_ & FE & _).
    apply flushEvent_no_waitTime in FE.
    destruct og as [[e|]| |];
      destruct X as (_ & _ & ->); rewrite ?count_app, ?FE; reflexivity.
Qed.

(** With a retry budget on every writer and fuel beyond the budgets, no
    task is left running: the flush returns (or a task panics). *)
Lemma flushSingleDestination_bounded fuel w clk dw :
  0 < maxRetries dw < max_int -> maxRetries dw < Z.of_nat fuel ->
  outcomeOf (flushSingleDestination env K fuel w clk dw) <> Running.
Proof.
  intros Hm Hf. unfold flushSingleDestination.
  destruct (Z.eqb_spec (maxRetries dw) 0) as [E|_]; [lia|].
  destruct (Retry env fuel w (insertSettings K w dw) (maxRetries dw) 0 clk dw)
    as [[[o c1] d1] e1] eqn:RE.
  destruct (Retry_bounded env _ _ _ _ _ _ _ _ _ _ _ Hm RE ltac:(lia))
    as (_ & B).
  apply B. lia.
Qed.

Lemma errgroup_bounded fuel w dws : forall clk,
  Forall (fun dw => 0 < maxRetries dw < max_int
                    /\ maxRetries dw < Z.of_nat fuel) dws ->
  outcomeOf (errgroup env K fuel w clk dws) <> Running.
Proof.
  induction dws as [|dw rest IH]; intros clk B; [discriminate|].
  inversion B as [|? ? (Hm & Hf) Br]; subst. simpl.
  pose proof (flushSingleDestination_bounded fuel w clk dw Hm Hf) as N1.
  destruct (flushSingleDestination env K fuel w clk dw)
    as [[[o1 c1] d1] e1].
  unfold outcomeOf in N1. simpl in N1.
  destruct o1 as [x| |]; [|discriminate|congruence].
  specialize (IH c1 Br).
  destruct (errgroup env K fuel w c1 rest) as [[[os c2] r2] e2].
  unfold outcomeOf in *. simpl in *.
  destruct os as [y| |]; [|discriminate|congruence].
  destruct x, y; try destruct (first_done env c1); discriminate.
Qed.

Lemma Flush_bounded fuel clk w :
  Forall (fun dw => 0 < maxRetries dw < max_int
                    /\ maxRetries dw < Z.of_nat fuel) (destWriters w) ->
  outcomeOf (Flush env K fuel clk w) <> Running.
Proof.
  intros B. unfold Flush.
  destruct (FlowCount (bf w) =? 0); [discriminate|].
  pose proof (errgroup_bounded fuel w (destWriters w) clk B) as N.
  destruct (errgroup env K fuel w clk (destWriters w)) as [[[o c1] dws] evs].
  unfold outcomeOf in *. simpl in *.
  destruct o; [discriminate|discriminate|congruence].
Qed.

End FlushEvents.

(** ** Destinations up and down *)

Lemma up_down_absurd (env : Env) (dw : destinationWriter) :
  up env dw -> down env dw -> False.
Proof.
  intros (NE & (AD & _) & _) (_ & DF & _).
  assert (I : exists a, In a (servers dw)).
  { destruct (servers dw) as [|a l]; [congruence|].
    exists a. left. reflexivity. }
  destruct I as (a & I).
  apply (DF 0%nat {| Address := a; Database := ""; User := "" |}).
  - exact I.
  - apply AD. exact I.
Qed.

Lemma tally_up (env : Env) (dw : destinationWriter) (evs : list Event) :
  up env dw -> tally env dw evs ->
  attemptsOf (name dw) evs = 1%nat /\ writesOf (name dw) evs = 1%nat
  /\ exceededOf (name dw) evs = 0%nat.
Proof.
  intros U [(_ & T)|(D & _)]; [exact T|].
  exfalso. eapply up_down_absurd; eauto.
Qed.

Lemma tally_down (env : Env) (dw : destinationWriter) (evs : list Event) :
  down env dw -> tally env dw evs ->
  Z.of_nat (attemptsOf (name dw) evs) = maxRetries dw
  /\ writesOf (name dw) evs = 0%nat /\ exceededOf (name dw) evs = 1%nat.
Proof.
  intros D [(U & _)|(_ & T)]; [|exact T].
  exfalso. eapply up_down_absurd; eauto.
Qed.

(** The log line and the clear that end a flush count for no attempt, no
    write and no exhaustion. *)
Lemma counts_flush_tail (d : string) (w : realWorker) (evg : list Event)
  (err : option error) :
  let evs :=
    evg
    ++ match err with
       | Some e =>
         [EvLog (Some e) [] (logfields w []) "one or more destinations failed"]
       | None => []
       end
    ++ [EvClear] in
  attemptsOf d evs = attemptsOf d evg
  /\ writesOf d evs = writesOf d evg
  /\ exceededOf d evs = exceededOf d evg.
Proof.
  cbv zeta. unfold attemptsOf, writesOf, exceededOf.
  rewrite !count_app. destruct err; unfold count; simpl; repeat split; lia.
Qed.

(** ** The order of a connect *)

Section ConnectFacts.

Variable env : Env.

Lemma last_cons {A : Type} (x : A) (l : list A) (d : A) :
  List.last (x :: l) d = List.last l x.
Proof.
  revert x d. induction l as [|y l IH]; intros x d; [reflexivity|].
  change (List.last (x :: y :: l) d) with (List.last (y :: l) d).
  rewrite !IH. reflexivity.
Qed.

Lemma nth_error_nth_default (l : list string) (i : nat) (a : string) :
  nth_error l i = Some a -> nth i l "" = a.
Proof. intros H. now apply nth_error_nth. Qed.

(** The loop of a connect goes through the candidates in the order of the
    permutation: either it stops at the first that passes the dial and
    the probe, which becomes the connection, or every candidate is ruled
    out and the error returned is the last one met ([lastErr] when there
    is no candidate). *)
Lemma tryServers_order w perm : forall clk dw lastErr o clk' dw' evs,
  Forall (fun i => (i < List.length (servers dw))%nat) perm ->
  tryServers env w perm clk dw lastErr = (o, clk', dw', evs) ->
  (exists pre cl post,
     tried evs = pre ++ [(server cl, None)]
     /\ Forall (fun x => snd x <> None) pre
     /\ candidates (servers dw) perm = map fst pre ++ server cl :: post
     /\ o = Returned None
     /\ conn dw' = Some cl)
  \/ (map fst (tried evs) = candidates (servers dw) perm
      /\ Forall (fun x => snd x <> None) (tried evs)
      /\ o = Returned (List.last (map snd (tried evs)) lastErr)
      /\ conn dw' = conn dw).
Proof.
  induction perm as [|idx rest IH]; intros clk dw lastErr o clk' dw' evs B;
    simpl.
  - intros H. inversion H; subst. right. simpl. auto.
  - inversion B as [|? ? Bi Br]; subst.
    destruct (nth_error_bound _ _ Bi) as (addr & N & _).
    rewrite N. rewrite (nth_error_nth_default _ _ _ N).
    destruct (ch_Dial env clk _) as [code|].
    + destruct (tryServers env w rest (S clk) _ _) as [[[o1 c1] d1] e1] eqn:T.
      intros H. inversion H; subst; clear H.
      apply IH in T; [|exact Br]. simpl in T. simpl.
      destruct T as [(pre & cl & post & T1 & T2 & T3 & T4 & T5)
                    |(T1 & T2 & T3 & T4)].
      * left. exists ((addr, Some (NetError code)) :: pre), cl, post.
        rewrite T1, T3. simpl. repeat split; auto.
        constructor; [discriminate|exact T2].
      * right. split; [rewrite T1; reflexivity|].
        split; [constructor; [discriminate|exact T2]|].
        split; [|exact T4]. rewrite T3.
        rewrite <- (last_cons (Some (NetError code)) _ lastErr). reflexivity.
    + destruct (client_Ping env (S clk) _) as [code|].
      * destruct (tryServers env w rest (S (S clk)) _ _)
          as [[[o1 c1] d1] e1] eqn:T.
        intros H. inversion H; subst; clear H.
        apply IH in T; [|exact Br]. simpl in T. simpl.
        destruct T as [(pre & cl & post & T1 & T2 & T3 & T4 & T5)
                      |(T1 & T2 & T3 & T4)].
        -- left. exists ((addr, Some (NetError code)) :: pre), cl, post.
           rewrite T1, T3. simpl. repeat split; auto.
           constructor; [discriminate|exact T2].
        -- right. split; [rewrite T1; reflexivity|].
           split; [constructor; [discriminate|exact T2]|].
           split; [|exact T4]. rewrite T3.
           rewrite <- (last_cons (Some (NetError code)) _ lastErr).
           reflexivity.
      * intros H. inversion H; subst; clear H.
        left. exists [], {| server := addr; dialed := clk |},
                (candidates (servers dw) rest).
        simpl. repeat split; auto.
Qed.

Lemma candidates_identity (srvs : list string) :
  candidates srvs (seq 0 (List.length srvs)) = srvs.
Proof.
  unfold candidates. set (f := fun i => nth i srvs "").
  apply nth_ext with (d := "") (d' := "").
  - now rewrite length_map, length_seq.
  - intros n Hn. rewrite length_map, length_seq in Hn.
    rewrite (nth_indep _ "" (f 0%nat))
      by (now rewrite length_map, length_seq).
    rewrite map_nth, seq_nth by exact Hn. reflexivity.
Qed.

Lemma candidates_Permutation (srvs : list string) (perm : list nat) :
  Permutation perm (seq 0 (List.length srvs)) ->
  Permutation (candidates srvs perm) srvs.
Proof.
  intros P. rewrite <- (candidates_identity srvs) at 2.
  unfold candidates. apply Permutation_map. exact P.
Qed.

(** The orders of the servers and the permutations of their indices
    answer one another: every order is that of some permutation, and of
    one only when no address is listed twice. *)
Lemma candidates_onto (srvs order : list string) :
  Permutation order srvs ->
  exists perm,
    Permutation perm (seq 0 (List.length srvs))
    /\ candidates srvs perm = order.
Proof.
  intros P. rewrite <- (candidates_identity srvs) in P. unfold candidates in P.
  apply Permutation_map_inv in P. destruct P as (perm & E & P).
  exists perm. split; [apply Permutation_sym; exact P|].
  unfold candidates. symmetry. exact E.
Qed.

Lemma candidates_inj (srvs : list string) :
  NoDup srvs ->
  forall p q,
    Forall (fun i => (i < List.length srvs)%nat) p ->
    Forall (fun i => (i < List.length srvs)%nat) q ->
    candidates srvs p = candidates srvs q -> p = q.
Proof.
  intros ND. induction p as [|i p IH]; intros [|j q] Fp Fq E; simpl in E;
    try discriminate E; [reflexivity|].
  inversion E as [[E1 E2]].
  inversion Fp as [|? ? Bi Bp]; inversion Fq as [|? ? Bj Bq]; subst.
  f_equal.
  - apply (proj1 (NoDup_nth srvs "") ND); assumption.
  - apply IH; assumption.
Qed.

Lemma count_occ_map_inj {A B : Type}
  (decA : forall x y : A, {x = y} + {x <> y})
  (decB : forall x y : B, {x = y} + {x <> y})
  (f : A -> B) (l : list A) (x : A) :
  (forall y, In y l -> f y = f x -> y = x) ->
  count_occ decB (map f l) (f x) = count_occ decA l x.
Proof.
  induction l as [|y l IH]; intros I; [reflexivity|]. simpl.
  destruct (decB (f y) (f x)) as [E|N]; destruct (decA y x) as [E'|N'].
  - f_equal. apply IH. intros z Hz. apply I. right. exact Hz.
  - exfalso. apply N'. apply I; [left; reflexivity|exact E].
  - exfalso. apply N. rewrite E'. reflexivity.
  - apply IH. intros z Hz. apply I. right. exact Hz.
Qed.

Lemma Permutation_seq_bounds (perm : list nat) (n : nat) :
  Permutation perm (seq 0 n) -> Forall (fun i => (i < n)%nat) perm.
Proof.
  intros P. apply Forall_forall. intros i Hi.
  eapply Permutation_in in Hi; [|exact P].
  apply in_seq in Hi. lia.
Qed.

End ConnectFacts.

(** * The claims *)

(** C1 (the code departs from it). The specification has [FinalizeAndSend]
    flush exactly when the batch has reached the primary's
    [MaximumBatchSize] or the wait has reached its [MaximumWaitTime], and
    otherwise do nothing and answer OK. The code compares the batch size
    with [int(MaximumBatchSize)]: for a [MaximumBatchSize] of 2^63 the
    conversion is negative, and a batch of 5 records, one second after the
    last flush and with a wait of 5 seconds allowed, is sent, the time of
    the last flush is reset, and the answer is Underloaded. *)
Theorem FinalizeAndSend_huge_batch_size :
  let w := Examples.aged (NewWorker Examples.huge 0 (Examples.batch 5)) in
  let r := FinalizeAndSend Examples.net Examples.K10 1 0 w in
  ~ thresholdCrossed Examples.net 0 w
  /\ outcomeOf r = Returned WorkerStatusUnderloaded
  /\ last (stateOf r) <> last w
  /\ sends (eventsOf r) = 1%nat.
Proof.
  cbv zeta. split; [|split; [|split]].
  - unfold thresholdCrossed.
    intros [H|H]; vm_compute in H; apply H; reflexivity.
  - vm_compute. reflexivity.
  - vm_compute. discriminate.
  - vm_compute. reflexivity.
Qed.

(** C2. After a flush that the thresholds triggered, [FinalizeAndSend]
    answers Overloaded for a batch of at least [MaximumBatchSize] records
    of the primary, else Underloaded for one of at most
    [MaximumBatchSize / K] records, else OK: the answer is the load signal
    of the specification, the three cases are exhaustive, and for a
    positive [MaximumBatchSize] and a divisor above 1 the two thresholds
    exclude each other. *)
Theorem FinalizeAndSend_load_signal
  (env : Env) (K : positive) (fuel clk : nat) (w : realWorker)
  (st : WorkerStatus) (clk' : nat) (w' : realWorker) (evs : list Event) :
  let cfg := primaryConfig (c w) in
  let s := FlowCount (Finalize env (bf w)) in
  0 <= s <= max_int ->
  triggered env clk w = true ->
  FinalizeAndSend env K fuel clk w = (Returned st, clk', w', evs) ->
  st = loadSignal K cfg s
  /\ (MaximumBatchSize cfg <= s -> st = WorkerStatusOverloaded)
  /\ (s < MaximumBatchSize cfg -> s <= MaximumBatchSize cfg / Z.pos K ->
      st = WorkerStatusUnderloaded)
  /\ (s < MaximumBatchSize cfg -> MaximumBatchSize cfg / Z.pos K < s ->
      st = WorkerStatusOK)
  /\ (0 < MaximumBatchSize cfg -> (1 < K)%positive ->
      s <= MaximumBatchSize cfg / Z.pos K -> s < MaximumBatchSize cfg).
Proof.
  intros cfg s Hs T F.
  destruct (FinalizeAndSend_flushes env K fuel clk w _ _ _ _ T F)
    as (oF & wF & evsF & pre & post & _ & _ & _ & _ & _ & _ & ST).
  fold s cfg in ST. rewrite (count_to_uint s Hs) in ST.
  assert (E : st = loadSignal K cfg s) by exact ST.
  split; [exact E|]. unfold loadSignal in E.
  split; [|split; [|split]].
  - intros H. apply Z.leb_le in H. rewrite H in E. exact E.
  - intros H1 H2. apply Z.leb_gt in H1. apply Z.leb_le in H2.
    rewrite H1, H2 in E. exact E.
  - intros H1 H2. apply Z.leb_gt in H1. apply Z.leb_gt in H2.
    rewrite H1, H2 in E. exact E.
  - intros H1 H2 H3.
    assert (MaximumBatchSize cfg / Z.pos K < MaximumBatchSize cfg)
      by (apply Z.div_lt; lia).
    lia.
Qed.

Lemma FinalizeAndSend_load_signal_witness :
  let w := NewWorker Examples.dual 0 (Examples.batch 10) in
  let r := FinalizeAndSend Examples.net Examples.K10 2 0 w in
  0 <= FlowCount (Finalize Examples.net (bf w)) <= max_int
  /\ triggered Examples.net 0 w = true
  /\ r = (Returned WorkerStatusUnderloaded, clockOf r, stateOf r, eventsOf r)
  /\ WorkerStatusUnderloaded
     = loadSignal Examples.K10 (primaryConfig (c w))
         (FlowCount (Finalize Examples.net (bf w))).
Proof.
  cbv zeta.
  assert (H1 : 0 <= FlowCount
                      (Finalize Examples.net
                         (bf (NewWorker Examples.dual 0 (Examples.batch 10))))
               <= max_int) by (vm_compute; split; discriminate).
  assert (H2 : triggered Examples.net 0
                 (NewWorker Examples.dual 0 (Examples.batch 10)) = true)
    by (vm_compute; reflexivity).
  split; [exact H1|]. split; [exact H2|].
  split; [vm_compute; reflexivity|].
  refine (proj1 (FinalizeAndSend_load_signal Examples.net Examples.K10 2 0
                   (NewWorker Examples.dual 0 (Examples.batch 10))
                   _ _ _ _ H1 H2 _)).
  vm_compute. reflexivity.
Defined.

(** C3. When [Flush] returns, forced or triggered from [FinalizeAndSend],
    the buffer counts zero records, whatever the destinations returned;
    on a buffer that was not empty every task of the flush has returned
    before, the clear is the last event and the only clear, and what the
    caller gets is no error: nothing for [Flush], a status for
    [FinalizeAndSend]. *)
Theorem Flush_clears_after_all_settled
  (env : Env) (K : positive) (fuel clk : nat) (w : realWorker)
  (u : unit) (clk' : nat) (w' : realWorker) (evs : list Event) :
  Flush env K fuel clk w = (Returned u, clk', w', evs) ->
  FlowCount (bf w') = 0
  /\ u = tt
  /\ (FlowCount (bf w) <> 0 ->
      let tasks := taskResults env K fuel w clk (destWriters w) in
      Forall settled tasks
      /\ exists log,
          evs = List.concat (map snd tasks) ++ log ++ [EvClear]
          /\ count isClear (List.concat (map snd tasks) ++ log) = 0%nat)
  /\ (forall clk0 w0 st clk2 w2 evs2,
        triggered env clk0 w0 = true ->
        FinalizeAndSend env K fuel clk0 w0 = (Returned st, clk2, w2, evs2) ->
        FlowCount (bf w2) = 0).
Proof.
  intros F. split; [eapply Flush_clears; exact F|].
  split; [destruct u; reflexivity|]. split.
  - intros NE. cbv zeta.
    destruct (Flush_nonempty _ _ _ _ _ _ _ _ _ NE F)
      as (og & dws & evg & G & X).
    destruct og as [err| |]; destruct X as (X1 & X2 & X3); try discriminate.
    pose proof (errgroup_inv _ _ _ _ _ _ _ _ _ _ G) as (_ & FE & _).
    destruct (errgroup_settled _ _ _ _ _ _ _ _ _ _ G) as (ST & EG).
    split; [exact ST|].
    exists (match err with
            | Some e =>
              [EvLog (Some e) [] (logfields w [])
                 "one or more destinations failed"]
            | None => []
            end).
    rewrite <- EG. split; [exact X3|].
    rewrite count_app, (flushEvent_no_Clear _ _ FE).
    destruct err; reflexivity.
  - intros clk0 w0 st clk2 w2 evs2 T FS.
    destruct (FinalizeAndSend_flushes env K fuel clk0 w0 _ _ _ _ T FS)
      as (oF & wF & evsF & pre & post & FF & _ & _ & _ & -> & -> & _).
    simpl. eapply Flush_clears. exact FF.
Qed.

Lemma Flush_clears_after_all_settled_witness :
  let w := NewWorker Examples.dual 0 (Examples.batch 10) in
  let r := Flush Examples.net Examples.K10 2 0 w in
  r = (Returned tt, clockOf r, stateOf r, eventsOf r)
  /\ FlowCount (bf (stateOf r)) = 0
  /\ exceededOf "azure" (eventsOf r) = 1%nat.
Proof.
  cbv zeta.
  assert (H : Flush Examples.net Examples.K10 2 0
                (NewWorker Examples.dual 0 (Examples.batch 10))
              = (Returned tt,
                 clockOf (Flush Examples.net Examples.K10 2 0
                            (NewWorker Examples.dual 0 (Examples.batch 10))),
                 stateOf (Flush Examples.net Examples.K10 2 0
                            (NewWorker Examples.dual 0 (Examples.batch 10))),
                 eventsOf (Flush Examples.net Examples.K10 2 0
                             (NewWorker Examples.dual 0 (Examples.batch 10)))))
    by (vm_compute; reflexivity).
  split; [exact H|]. split.
  - exact (proj1 (Flush_clears_after_all_settled _ _ _ _ _ _ _ _ _ H)).
  - vm_compute. reflexivity.
Defined.

(** C4 (counterexample). The buffer is not serialized exactly once in a
    flush: with a single healthy destination the one send reads the
    buffer's input twice, once for the body of the query and once for its
    input. *)
Lemma Flush_serializes_per_send :
  let r := Flush Examples.net Examples.K10 1 0
             (NewWorker Examples.single 0 (Examples.batch 10)) in
  outcomeOf r = Returned tt
  /\ sends (eventsOf r) = 1%nat
  /\ serializations (eventsOf r) = 2%nat
  /\ ~ serializedOnce (eventsOf r).
Proof.
  cbv zeta. repeat split; try (vm_compute; reflexivity).
  unfold serializedOnce. vm_compute. discriminate.
Qed.

(** C4 (amended). Within one flush every send, to whatever destination
    and with whatever settings, carries the input of the buffer as it is
    when the flush starts, into the same table, and every record count
    observed is the buffer's; the buffer is not serialized once but read
    twice per send. *)
Theorem Flush_same_payload
  (env : Env) (K : positive) (fuel clk : nat) (w : realWorker) :
  let r := Flush env K fuel clk w in
  Forall (carriesBuffer w) (eventsOf r)
  /\ Forall (observesCount (FlowCount (bf w))) (eventsOf r)
  /\ (outcomeOf r <> Panicked ->
      serializations (eventsOf r) = (2 * sends (eventsOf r))%nat).
Proof.
  cbv zeta.
  destruct (Flush env K fuel clk w) as [[[o c1] w1] evs] eqn:F.
  unfold eventsOf, outcomeOf. simpl.
  destruct (Z.eq_dec (FlowCount (bf w)) 0) as [E|NE].
  - unfold Flush in F. rewrite E in F. simpl in F.
    inversion F; subst. repeat split; auto.
  - destruct (Flush_nonempty _ _ _ _ _ _ _ _ _ NE F) as (og & dws & evg & G & X).
    pose proof (errgroup_inv _ _ _ _ _ _ _ _ _ _ G)
      as (_ & _ & B & O & N).
    assert (L : forall l, (forall e, In e l -> isDo e = false
                                     /\ isProtoInput e = false
                                     /\ (forall d m, e <> EvMetric (flows_Observe d m))) ->
                Forall (carriesBuffer w) (evg ++ l)
                /\ Forall (observesCount (FlowCount (bf w))) (evg ++ l)
                /\ (og <> Panicked ->
                    serializations (evg ++ l) = (2 * sends (evg ++ l))%nat)).
    { intros l Hl. split; [|split].
      - apply Forall_app. split; [exact B|]. apply Forall_forall.
        intros e I d cl q r ->. destruct (Hl _ I) as (X1 & _). discriminate.
      - apply Forall_app. split; [exact O|]. apply Forall_forall.
        intros e I d m ->. destruct (Hl _ I) as (_ & _ & X3).
        exfalso. eapply X3. reflexivity.
      - intros NP. unfold serializations, sends in *.
        rewrite !count_app, N by exact NP.
        assert (Z1 : count isDo l = 0%nat /\ count isProtoInput l = 0%nat).
        { clear -Hl. induction l as [|e l IH]; [auto|].
          destruct (Hl e (or_introl eq_refl)) as (A1 & A2 & _).
          destruct IH as (I1 & I2); [intros; apply Hl; right; assumption|].
          rewrite !count_cons, A1, A2, I1, I2. auto. }
        destruct Z1 as (-> & ->). lia. }
    destruct og as [err| |]; destruct X as (-> & _ & ->).
    + destruct (L (match err with
                   | Some e =>
                     [EvLog (Some e) [] (logfields w [])
                        "one or more destinations failed"]
                   | None => []
                   end ++ [EvClear])) as (L1 & L2 & L3).
      { intros e I.
        destruct err as [x|]; simpl in I;
          repeat (destruct I as [<-|I]; [repeat split; auto; discriminate|]);
          destruct I. }
      repeat split; auto. intros _. apply L3. discriminate.
    + destruct (L []) as (L1 & L2 & _); [intros e []|].
      rewrite app_nil_r in *. repeat split; auto; congruence.
    + destruct (L []) as (L1 & L2 & L3); [intros e []|].
      rewrite app_nil_r in *. repeat split; auto.
      intros _. apply L3. discriminate.
Qed.

(** C9. A worker fresh from [NewWorker] has the zero time as the time of
    its last flush. With a clock that is not before 1970 the time since
    then saturates at the largest duration, so the first
    [FinalizeAndSend] meets the wait-time threshold whatever
    [MaximumWaitTime] is: it goes through [Flush] on the finalized buffer,
    observes no wait time, and when it returns the buffer is empty and the
    time of the last flush is the current time. *)
Theorem first_FinalizeAndSend_flushes
  (env : Env) (K : positive) (fuel clk : nat)
  (cm : realComponent) (i : Z) (b : FlowMessage) :
  unixEpoch <= time_Now env clk ->
  MaximumWaitTime (primaryConfig cm) <= max_int ->
  let w := NewWorker cm i b in
  let r := FinalizeAndSend env K fuel clk w in
  last w = GoTime.zero
  /\ MaximumWaitTime (primaryConfig cm) <= Sub (time_Now env clk) (last w)
  /\ triggered env clk w = true
  /\ count isWaitTime (eventsOf r) = 0%nat
  /\ (exists oF wF evsF post,
        Flush env K fuel clk (set_bf w (Finalize env b))
        = (oF, clockOf r, wF, evsF)
        /\ eventsOf r = EvFinalize :: evsF ++ post)
  /\ (forall st, outcomeOf r = Returned st ->
        FlowCount (bf (stateOf r)) = 0
        /\ last (stateOf r) = time_Now env (clockOf r)).
Proof.
  intros Hnow Hmax w r.
  assert (W : MaximumWaitTime (primaryConfig cm)
              <= Sub (time_Now env clk) (last w)).
  { simpl. rewrite Sub_from_zero by exact Hnow. exact Hmax. }
  assert (T : triggered env clk w = true).
  { unfold triggered. apply orb_true_iff. right. apply Z.leb_le. exact W. }
  split; [reflexivity|]. split; [exact W|]. split; [exact T|].
  destruct r as [[[o c1] w1] evs] eqn:R. subst r.
  destruct (FinalizeAndSend_flushes env K fuel clk w _ _ _ _ T R)
    as (oF & wF & evsF & pre & post & FF & EV & PRE & POST & ST).
  simpl in PRE. subst pre. simpl in EV.
  unfold eventsOf, outcomeOf, stateOf, clockOf. simpl.
  split; [|split].
  - subst evs. rewrite count_cons, count_app, POST. simpl.
    pose proof (Flush_no_waitTime env K fuel clk (set_bf w (Finalize env (bf w))))
      as NW.
    rewrite FF in NW. unfold eventsOf in NW. simpl in NW. rewrite NW.
    reflexivity.
  - exists oF, wF, evsF, post. split; [exact FF|exact EV].
  - intros st ->. destruct ST as (-> & -> & _). simpl.
    split; [|reflexivity]. eapply Flush_clears. exact FF.
Qed.

Lemma first_FinalizeAndSend_flushes_witness :
  let w := NewWorker Examples.dual 0 (Examples.batch 10) in
  let r := FinalizeAndSend Examples.net Examples.K10 2 0 w in
  unixEpoch <= time_Now Examples.net 0
  /\ MaximumWaitTime (primaryConfig Examples.dual) <= max_int
  /\ triggered Examples.net 0 w = true
  /\ count isWaitTime (eventsOf r) = 0%nat.
Proof.
  cbv zeta.
  assert (H1 : unixEpoch <= time_Now Examples.net 0)
    by (vm_compute; discriminate).
  assert (H2 : MaximumWaitTime (primaryConfig Examples.dual) <= max_int)
    by (vm_compute; discriminate).
  split; [exact H1|]. split; [exact H2|].
  pose proof (first_FinalizeAndSend_flushes Examples.net Examples.K10 2 0
                Examples.dual 0 (Examples.batch 10) H1 H2) as X.
  cbv zeta in X. destruct X as (_ & _ & T & N & _).
  split; [exact T|exact N].
Defined.

(** C6. A destination with [MaxRetries = 0] has no retry exhaustion: its
    task never returns the retry-exhaustion error and never counts one.
    When the destination is down and the context is never cancelled, the
    task has made [n] write attempts after [n] calls of the closure and
    has not returned, for every [n]; once the context is cancelled, the
    task returns [ctx.Err()], which is not the retry-exhaustion error. *)
Theorem flushSingleDestination_unbounded
  (env : Env) (K : positive) (w : realWorker) (clk : nat)
  (dw : destinationWriter) :
  maxRetries dw = 0 ->
  perm_ok env ->
  down env dw ->
  (forall fuel,
     (forall mx nm,
        outcomeOf (flushSingleDestination env K fuel w clk dw)
        <> Returned (Some (MaxRetriesError mx nm)))
     /\ exceededOf (name dw)
          (eventsOf (flushSingleDestination env K fuel w clk dw)) = 0%nat)
  /\ (never_cancelled env ->
      forall n,
        outcomeOf (flushSingleDestination env K n w clk dw) = Running
        /\ attemptsOf (name dw)
             (eventsOf (flushSingleDestination env K n w clk dw)) = n)
  /\ (forall T,
        (forall t, (T <= t)%nat -> ctx_Done env t = true) ->
        exists fuel,
          outcomeOf (flushSingleDestination env K fuel w clk dw)
          = Returned (Some ContextError))
  /\ (forall mx nm, ContextError <> MaxRetriesError mx nm).
Proof.
  intros M P D. unfold flushSingleDestination. rewrite M. simpl.
  split; [|split; [|split]].
  - intros fuel.
    destruct (Retry env fuel w (insertSettings K w dw) (-1) 0 clk dw)
      as [[[o c1] d1] e1] eqn:RE.
    apply Retry_unbounded in RE. exact RE.
  - intros NC n.
    destruct (Retry env n w (insertSettings K w dw) (-1) 0 clk dw)
      as [[[o c1] d1] e1] eqn:RE.
    apply Retry_down_unbounded in RE; auto.
  - intros T CT. exists (S T).
    apply Retry_down_cancelled with (T := T); auto. lia.
  - intros mx nm. discriminate.
Qed.

Lemma flushSingleDestination_unbounded_witness :
  let w := NewWorker Examples.stuck 0 (Examples.batch 5) in
  maxRetries Examples.stuckWriter = 0
  /\ outcomeOf (flushSingleDestination Examples.net Examples.K10 7 w 0
                  Examples.stuckWriter) = Running
  /\ attemptsOf "primary"
       (eventsOf (flushSingleDestination Examples.net Examples.K10 7 w 0
                    Examples.stuckWriter)) = 7%nat
  /\ exists fuel,
       outcomeOf (flushSingleDestination Examples.netCancelled Examples.K10
                    fuel w 0 Examples.stuckWriter)
       = Returned (Some ContextError).
Proof.
  cbv zeta. split; [reflexivity|].
  pose proof (flushSingleDestination_unbounded Examples.net Examples.K10
                (NewWorker Examples.stuck 0 (Examples.batch 5)) 0
                Examples.stuckWriter eq_refl net_perm_ok stuckWriter_down)
    as (_ & X & _).
  pose proof (flushSingleDestination_unbounded Examples.netCancelled
                Examples.K10
                (NewWorker Examples.stuck 0 (Examples.batch 5)) 0
                Examples.stuckWriter eq_refl netCancelled_perm_ok
                stuckWriter_down_cancelled)
    as (_ & _ & Y & _).
  destruct (X net_never_cancelled 7%nat) as (X1 & X2).
  split; [exact X1|]. split; [exact X2|].
  exact (Y 5%nat netCancelled_cancelled).
Defined.

(** C5. A writer with a retry budget ([0 < MaxRetries], below the largest
    [int]) makes at most [MaxRetries] write attempts, its task ends within
    [MaxRetries + 1] calls of the retried closure, and the retries-exceeded
    counter moves, by one, exactly when the task ends with the
    retry-exhaustion error, after which nothing is retried. In particular,
    in a flush over writers with distinct names that are all up but one,
    which is down and has [MaxRetries = 1], with a context that is not
    cancelled: the flush returns, every writer that is up makes one
    attempt and one successful write, and the one that is down makes one
    attempt, no write, and one increment of the retries-exceeded
    counter. *)
Theorem Flush_retry_budget
  (env : Env) (K : positive) (fuel clk : nat) (w : realWorker)
  (pre : list destinationWriter) (f : destinationWriter)
  (post : list destinationWriter) :
  perm_ok env ->
  never_cancelled env ->
  destWriters w = pre ++ f :: post ->
  NoDup (map name (destWriters w)) ->
  FlowCount (bf w) <> 0 ->
  Forall (up env) (pre ++ post) ->
  down env f ->
  maxRetries f = 1 ->
  (2 <= fuel)%nat ->
  (forall n w0 clk0 dw,
     0 < maxRetries dw < max_int ->
     let r := flushSingleDestination env K n w0 clk0 dw in
     Z.of_nat (attemptsOf (name dw) (eventsOf r)) <= maxRetries dw
     /\ (maxRetries dw < Z.of_nat n -> outcomeOf r <> Running)
     /\ (exceededOf (name dw) (eventsOf r) <= 1)%nat
     /\ (exceededOf (name dw) (eventsOf r) = 1%nat <->
         outcomeOf r
         = Returned (Some (MaxRetriesError (maxRetries dw) (name dw)))))
  /\ (exists clk' w' evs,
        Flush env K fuel clk w = (Returned tt, clk', w', evs)
        /\ (forall dw, In dw (pre ++ post) ->
              attemptsOf (name dw) evs = 1%nat
              /\ writesOf (name dw) evs = 1%nat
              /\ exceededOf (name dw) evs = 0%nat)
        /\ attemptsOf (name f) evs = 1%nat
        /\ writesOf (name f) evs = 0%nat
        /\ exceededOf (name f) evs = 1%nat).
Proof.
  intros P NC DW ND NE UP DN MR HF. split.
  - intros n w0 clk0 dw Hm. cbv zeta. unfold flushSingleDestination.
    destruct (Z.eqb_spec (maxRetries dw) 0) as [E|_]; [lia|].
    destruct (Retry env n w0 (insertSettings K w0 dw) (maxRetries dw) 0 clk0 dw)
      as [[[o c1] d1] e1] eqn:RE.
    unfold eventsOf, outcomeOf. simpl.
    destruct (Retry_bounded env _ _ _ _ _ _ _ _ _ _ _ Hm RE ltac:(lia))
      as (B1 & B2).
    destruct (Retry_outcome env _ _ _ _ _ _ _ _ _ _ _ RE) as (O & _ & E).
    split; [lia|]. split; [intros H; apply B2; lia|].
    rewrite E.
    destruct O as [->|[->|[->|[->|(_ & ->)]]]];
      (split; [lia|]); split; intros H; try discriminate H; reflexivity.
  - destruct fuel as [|fuel]; [lia|].
    assert (UB : Forall (upOrBounded env (S fuel)) (destWriters w)).
    { rewrite DW. apply Forall_app in UP. destruct UP as (U1 & U2).
      apply Forall_app. split; [|constructor].
      - eapply Forall_impl; [|exact U1]. intros d U. left. exact U.
      - right. split; [exact DN|]. rewrite MR. unfold max_int. lia.
      - eapply Forall_impl; [|exact U2]. intros d U. left. exact U. }
    destruct (errgroup_tally env K fuel w (destWriters w) clk P NC ND UB)
      as (e & c1 & dws & evg & G & TL).
    destruct (Flush env K (S fuel) clk w) as [[[o c2] w2] evs] eqn:F.
    destruct (Flush_nonempty env K _ _ _ _ _ _ _ NE F)
      as (og & dws' & evg' & G' & X).
    rewrite G in G'. inversion G'; subst og c2 dws' evg'. clear G'.
    destruct X as (-> & _ & ->).
    exists c1, w2. eexists. split; [reflexivity|].
    split.
    + intros dw I.
      destruct (counts_flush_tail (name dw) w evg e) as (-> & -> & ->).
      apply (tally_up env).
      * rewrite Forall_forall in UP. apply UP. exact I.
      * apply TL. rewrite DW. apply in_app_iff.
        apply in_app_iff in I. destruct I; [left|right; right]; assumption.
    + destruct (counts_flush_tail (name f) w evg e) as (-> & -> & ->).
      destruct (tally_down env f evg DN) as (A & W & E).
      { apply TL. rewrite DW. apply in_app_iff. right. left. reflexivity. }
      rewrite MR in A. repeat split; auto. lia.
Qed.

Lemma Flush_retry_budget_witness :
  let w := NewWorker Examples.dual 0 (Examples.batch 10) in
  destWriters w = [Examples.primaryWriter] ++ Examples.azureWriter :: []
  /\ maxRetries Examples.azureWriter = 1
  /\ exists clk' w' evs,
       Flush Examples.net Examples.K10 2 0 w = (Returned tt, clk', w', evs)
       /\ attemptsOf "azure" evs = 1%nat
       /\ exceededOf "azure" evs = 1%nat
       /\ writesOf "primary" evs = 1%nat.
Proof.
  cbv zeta. split; [reflexivity|]. split; [reflexivity|].
  assert (ND : NoDup (map name (destWriters
                 (NewWorker Examples.dual 0 (Examples.batch 10))))).
  { simpl. repeat constructor; simpl; intuition discriminate. }
  assert (NE : FlowCount (bf (NewWorker Examples.dual 0 (Examples.batch 10)))
               <> 0) by discriminate.
  assert (UP : Forall (up Examples.net) ([Examples.primaryWriter] ++ []))
    by (constructor; [apply primaryWriter_up|constructor]).
  destruct (Flush_retry_budget Examples.net Examples.K10 2 0
              (NewWorker Examples.dual 0 (Examples.batch 10))
              [Examples.primaryWriter] Examples.azureWriter []
              net_perm_ok net_never_cancelled eq_refl ND NE UP
              azureWriter_down eq_refl (le_n 2))
    as (_ & c1 & w1 & evs & F & U & A & _ & E).
  exists c1, w1, evs. split; [exact F|]. split; [exact A|]. split; [exact E|].
  apply (U Examples.primaryWriter). left. reflexivity.
Defined.

(** C7. A connect on a writer whose connection is live and answers the
    probe returns at once with that connection and dials nothing.
    Otherwise (no connection, or one that fails the probe) it goes through
    the servers in the order of the permutation of their indices that
    [rand.Perm] answers at that time, and of no other, each with a dial
    and, if the dial went well, a probe: either it stops at
    the first server that passes both, which becomes the connection, and
    returns nil, or every server is ruled out, no connection is left, and
    it returns the last error met (nil when there is no server at all).
    The order is as random as the answer of [rand.Perm] is: every order
    of the servers is the order of some permutation of the indices, and
    of one only when no address is listed twice; so, of equally likely
    answers among which every permutation of the indices is met as often
    as any other, every order of the servers comes as often as any
    other. *)
Theorem connectDestination_order
  (env : Env) (w : realWorker) (clk : nat) (dw : destinationWriter) :
  perm_ok env ->
  let r := connectDestination env w clk dw in
  let n := List.length (servers dw) in
  (forall cl, conn dw = Some cl -> client_Ping env clk cl = None ->
     r = (Returned None, S clk, dw, [EvPing (name dw) cl None])
     /\ count isDial (eventsOf r) = 0%nat)
  /\ (forall perm,
        (conn dw = None /\ perm = rand_Perm env clk n)
        \/ (exists cl code,
              conn dw = Some cl /\ client_Ping env clk cl = Some code
              /\ perm = rand_Perm env (S clk) n) ->
        Permutation (candidates (servers dw) perm) (servers dw)
        /\ ((exists pre cl post,
               tried (eventsOf r) = pre ++ [(server cl, None)]
               /\ Forall (fun x => snd x <> None) pre
               /\ candidates (servers dw) perm
                  = map fst pre ++ server cl :: post
               /\ outcomeOf r = Returned None
               /\ conn (stateOf r) = Some cl)
            \/ (map fst (tried (eventsOf r)) = candidates (servers dw) perm
                /\ Forall (fun x => snd x <> None) (tried (eventsOf r))
                /\ outcomeOf r
                   = Returned (List.last (map snd (tried (eventsOf r))) None)
                /\ conn (stateOf r) = None)))
  /\ (forall order, Permutation order (servers dw) ->
        exists perm,
          Permutation perm (seq 0 n) /\ candidates (servers dw) perm = order)
  /\ (NoDup (servers dw) ->
      forall p q, Permutation p (seq 0 n) -> Permutation q (seq 0 n) ->
        candidates (servers dw) p = candidates (servers dw) q -> p = q)
  /\ (NoDup (servers dw) ->
      forall answers k,
        equally_often (list_eq_dec Nat.eq_dec) answers
          (fun p => Permutation p (seq 0 n)) k ->
        equally_often (list_eq_dec string_dec)
          (map (candidates (servers dw)) answers)
          (fun order => Permutation order (servers dw)) k).
Proof.
  intros P r n. subst r n. unfold connectDestination.
  split; [|split; [|split; [|split]]].
  5:{ intros ND answers k (A1 & A2). split.
      - intros order I. apply in_map_iff in I. destruct I as (p & <- & I).
        apply candidates_Permutation. apply A1. exact I.
      - intros order O. apply candidates_onto in O.
        destruct O as (p & Pp & <-).
        rewrite (count_occ_map_inj (list_eq_dec Nat.eq_dec)).
        + apply A2. exact Pp.
        + intros q I E.
          apply (candidates_inj (servers dw) ND q p);
            auto using Permutation_seq_bounds. }
  - intros cl C PG. rewrite C, PG. split; reflexivity.
  - intros perm H.
    assert (X : forall t dw1,
      servers dw1 = servers dw -> conn dw1 = None ->
      forall o clk' dw' evs,
        tryServers env w (rand_Perm env t (List.length (servers dw))) t dw1
          None = (o, clk', dw', evs) ->
        (exists pre cl post,
           tried evs = pre ++ [(server cl, None)]
           /\ Forall (fun x => snd x <> None) pre
           /\ candidates (servers dw)
                (rand_Perm env t (List.length (servers dw)))
              = map fst pre ++ server cl :: post
           /\ o = Returned None
           /\ conn dw' = Some cl)
        \/ (map fst (tried evs)
            = candidates (servers dw)
                (rand_Perm env t (List.length (servers dw)))
            /\ Forall (fun x => snd x <> None) (tried evs)
            /\ o = Returned (List.last (map snd (tried evs)) None)
            /\ conn dw' = None)).
    { intros t dw1 S1 C1 o clk' dw' evs T.
      apply tryServers_order in T.
      - rewrite S1, C1 in T. exact T.
      - rewrite S1. apply (perm_ok_bounds env t _ P). }
    destruct H as [(C & ->)|(cl & code & C & PG & ->)].
    + split; [apply candidates_Permutation; apply P|].
      rewrite C.
      destruct (tryServers env w _ clk dw None) as [[[o c1] d1] e1] eqn:T.
      apply (X clk dw eq_refl C) in T. exact T.
    + split; [apply candidates_Permutation; apply P|].
      rewrite C, PG.
      destruct (tryServers env w _ (S clk) (set_conn dw None) None)
        as [[[o c1] d1] e1] eqn:T.
      apply (X (S clk) (set_conn dw None) eq_refl eq_refl) in T. exact T.
  - intros order O. apply candidates_onto. exact O.
  - intros ND p q Pp Pq E.
    apply (candidates_inj (servers dw) ND p q);
      auto using Permutation_seq_bounds.
Qed.

Lemma connectDestination_order_witness :
  let w := NewWorker Examples.failover 0 (Examples.batch 5) in
  let dw := Examples.failoverWriter in
  let r := connectDestination Examples.net w 0 dw in
  let perm := rand_Perm Examples.net 0 (List.length (servers dw)) in
  perm_ok Examples.net
  /\ conn dw = None
  /\ servers dw = ["ch3:9000"; "down2:9000"; "down1:9000"]
  /\ perm = [2; 1; 0]%nat
  /\ map fst (tried (eventsOf r)) = ["down1:9000"; "down2:9000"; "ch3:9000"]
  /\ conn (stateOf r) = Some {| server := "ch3:9000"; dialed := 2 |}
  /\ ((exists pre cl post,
         tried (eventsOf r) = pre ++ [(server cl, None)]
         /\ Forall (fun x => snd x <> None) pre
         /\ candidates (servers dw) perm = map fst pre ++ server cl :: post
         /\ outcomeOf r = Returned None
         /\ conn (stateOf r) = Some cl)
      \/ (map fst (tried (eventsOf r)) = candidates (servers dw) perm
          /\ Forall (fun x => snd x <> None) (tried (eventsOf r))
          /\ outcomeOf r
             = Returned (List.last (map snd (tried (eventsOf r))) None)
          /\ conn (stateOf r) = None))
  /\ equally_often (list_eq_dec string_dec)
       (map (candidates (servers dw)) Examples.answers3)
       (fun order => Permutation order (servers dw)) 1.
Proof.
  cbv zeta. split; [exact net_perm_ok|]. split; [reflexivity|].
  split; [vm_compute; reflexivity|]. split; [vm_compute; reflexivity|].
  split; [vm_compute; reflexivity|]. split; [vm_compute; reflexivity|].
  destruct (connectDestination_order Examples.net
              (NewWorker Examples.failover 0 (Examples.batch 5)) 0
              Examples.failoverWriter net_perm_ok) as (_ & X & _ & _ & U).
  split.
  - exact (proj2 (X _ (or_introl (conj eq_refl eq_refl)))).
  - exact (U failoverWriter_NoDup _ _ answers3_equally_often).
Defined.

(** The failover of the specification: of three servers the two tried
    first refuse the dial, the connect ends on the third, and the next
    connect reuses that connection without a dial. *)
Example failover_then_reuse :
  let w := NewWorker Examples.failover 0 (Examples.batch 5) in
  let r1 := connectDestination Examples.net w 0 Examples.failoverWriter in
  let r2 := connectDestination Examples.net w (clockOf r1) (stateOf r1) in
  outcomeOf r1 = Returned None
  /\ count isDial (eventsOf r1) = 3%nat
  /\ outcomeOf r2 = Returned None
  /\ count isDial (eventsOf r2) = 0%nat
  /\ conn (stateOf r2) = conn (stateOf r1).
Proof. cbv zeta. repeat split; vm_compute; reflexivity. Qed.

(** C10. On a writer without servers and without a connection, a connect
    returns nil and leaves the connection absent, so the attempt goes on
    to the send and dereferences the absent connection: the task panics at
    its first attempt. A connect returns an error only for a writer that
    has servers. *)
Theorem connectDestination_without_servers
  (env : Env) (K : positive) (w : realWorker) (clk : nat)
  (dw : destinationWriter) :
  perm_ok env ->
  servers dw = [] ->
  conn dw = None ->
  connectDestination env w clk dw = (Returned None, clk, dw, [])
  /\ (forall fuel,
        outcomeOf (flushSingleDestination env K (S fuel) w clk dw) = Panicked
        /\ count isDo
             (eventsOf (flushSingleDestination env K (S fuel) w clk dw))
           = 0%nat)
  /\ (forall w0 clk0 dw0 e clk' dw' evs,
        connectDestination env w0 clk0 dw0 = (Returned (Some e), clk', dw', evs)
        -> servers dw0 <> []).
Proof.
  intros P S C.
  assert (PN : forall t, rand_Perm env t 0 = []).
  { intros t. apply Permutation_nil. apply Permutation_sym. apply (P t 0%nat). }
  assert (CD : connectDestination env w clk dw = (Returned None, clk, dw, [])).
  { unfold connectDestination. rewrite C, S. simpl. rewrite PN. reflexivity. }
  split; [exact CD|]. split.
  - intros fuel. unfold flushSingleDestination. simpl.
    unfold operation.
    assert (G : forall m, (0 <? m) && (m <? to_int (0 + 1)) = false).
    { intros m. change (to_int (0 + 1)) with 1.
      apply andb_false_iff. rewrite !Z.ltb_ge. lia. }
    rewrite G, CD, C. split; reflexivity.
  - intros w0 clk0 dw0 e clk' dw' evs H E.
    revert H. unfold connectDestination.
    destruct (conn dw0) as [cl|].
    + destruct (client_Ping env clk0 cl); [|discriminate].
      simpl. rewrite E. simpl. rewrite PN. simpl. discriminate.
    + rewrite E. simpl. rewrite PN. simpl. discriminate.
Qed.

Lemma connectDestination_without_servers_witness :
  let w := NewWorker Examples.serverless 0 (Examples.batch 5) in
  perm_ok Examples.net
  /\ servers Examples.serverlessWriter = []
  /\ conn Examples.serverlessWriter = None
  /\ connectDestination Examples.net w 0 Examples.serverlessWriter
     = (Returned None, 0%nat, Examples.serverlessWriter, [])
  /\ outcomeOf (Flush Examples.net Examples.K10 1 0 w) = Panicked.
Proof.
  cbv zeta. split; [exact net_perm_ok|]. split; [reflexivity|].
  split; [reflexivity|].
  split; [|vm_compute; reflexivity].
  exact (proj1 (connectDestination_without_servers Examples.net Examples.K10
                  (NewWorker Examples.serverless 0 (Examples.batch 5)) 0
                  Examples.serverlessWriter net_perm_ok eq_refl eq_refl)).
Defined.

(** C8. In the task of a writer that holds the async settings [NewWorker]
    gave it (async insert, wait for the acknowledgement, busy timeout),
    every send carries exactly these settings when the batch counts at
    most the writer's own [MaximumBatchSize / K] records, and no setting
    at all when the batch is larger. *)
Theorem flushSingleDestination_insert_mode
  (env : Env) (K : positive) (fuel : nat) (w : realWorker) (clk : nat)
  (dw : destinationWriter) (dest : destinationConfig) :
  0 <= FlowCount (bf w) <= max_int ->
  asyncSettings dw = asyncSettings (newWriter dest) ->
  let s := FlowCount (bf w) in
  let limit := MaximumBatchSize (config dw) / Z.pos K in
  map Key (asyncSettings dw)
  = ["async_insert"; "wait_for_async_insert";
     "async_insert_busy_timeout_max_ms"]
  /\ forall d cl q res,
       In (EvDo d cl q res)
         (eventsOf (flushSingleDestination env K fuel w clk dw)) ->
       (s <= limit -> Settings q = asyncSettings dw)
       /\ (limit < s -> Settings q = [])
       /\ (Settings q <> [] <-> s <= limit).
Proof.
  intros Hs HA s limit.
  assert (AS : map Key (asyncSettings dw)
               = ["async_insert"; "wait_for_async_insert";
                  "async_insert_busy_timeout_max_ms"]).
  { rewrite HA. unfold newWriter.
    destruct (ChGoOptions (dc_db dest)). reflexivity. }
  split; [exact AS|].
  intros d cl q res I.
  destruct (flushSingleDestination env K fuel w clk dw)
    as [[[o c1] d1] e1] eqn:F.
  pose proof (flushSingleDestination_inv env K _ _ _ _ _ _ _ _ F)
    as (_ & _ & _ & _ & _ & CS & _).
  rewrite Forall_forall in CS.
  specialize (CS _ I d cl q res eq_refl).
  unfold insertSettings in CS. rewrite (count_to_uint _ Hs) in CS.
  fold s limit in CS.
  destruct (Z.leb_spec s limit) as [L|L]; rewrite CS.
  - split; [reflexivity|]. split; [lia|].
    split; [intros _; exact L|].
    intros _ E. rewrite E in AS. discriminate AS.
  - split; [lia|]. split; [reflexivity|].
    split; [congruence|lia].
Qed.

Lemma flushSingleDestination_insert_mode_witness :
  let w := NewWorker Examples.single 0 (Examples.batch 10) in
  0 <= FlowCount (bf w) <= max_int
  /\ asyncSettings Examples.primaryWriter
     = asyncSettings (newWriter (Examples.dest "primary" ["ch1:9000"] 0 100))
  /\ map Key (asyncSettings Examples.primaryWriter)
     = ["async_insert"; "wait_for_async_insert";
        "async_insert_busy_timeout_max_ms"]
  /\ sends (eventsOf (flushSingleDestination Examples.net Examples.K10 1 w 0
                        Examples.primaryWriter)) = 1%nat.
Proof.
  cbv zeta.
  assert (H : 0 <= FlowCount
                     (bf (NewWorker Examples.single 0 (Examples.batch 10)))
              <= max_int) by (vm_compute; split; discriminate).
  split; [exact H|]. split; [reflexivity|].
  split; [|vm_compute; reflexivity].
  exact (proj1 (flushSingleDestination_insert_mode Examples.net Examples.K10 1
                  (NewWorker Examples.single 0 (Examples.batch 10)) 0
                  Examples.primaryWriter
                  (Examples.dest "primary" ["ch1:9000"] 0 100)
                  H eq_refl)).
Defined.

(** * Further properties of the worker *)

(** ** The ledger of a connect *)

Section Ledger.

Variable env : Env.
Variable K : positive.

Local Ltac tally_events :=
  unfold opens, closes, dials, sends, sleeps, errorsOf, attemptsOf, writesOf,
    exceededOf, serializations in *;
  repeat first [rewrite count_cons | rewrite count_app | rewrite count_nil];
  simpl; rewrite ?String.eqb_refl; simpl.

Lemma connect_no_Error d d' e :
  connectEvent d e = true -> isErrorOf d' e = false.
Proof. destruct e; simpl; auto; discriminate. Qed.

Lemma connect_no_Sleep d e : connectEvent d e = true -> isSleep e = false.
Proof. destruct e; simpl; auto; discriminate. Qed.

Lemma connectEvent_knownPhase d e : connectEvent d e = true -> knownPhase e.
Proof. intros H d' ph E. subst. discriminate H. Qed.

Lemma rand_Perm_length t n :
  perm_ok env -> List.length (rand_Perm env t n) = n.
Proof.
  intros P. rewrite (Permutation_length (P t n)). apply length_seq.
Qed.

(** The loop over the candidates, entered without a connection: every
    connection it opens it closes again, but for the one it installs; it
    dials once per candidate it goes through; after an error no connection
    is installed. *)
Lemma tryServers_ledger w perm : forall clk dw lastErr o clk' dw' evs,
  conn dw = None ->
  tryServers env w perm clk dw lastErr = (o, clk', dw', evs) ->
  opens evs = (closes evs + held dw')%nat
  /\ (dials evs <= List.length perm)%nat
  /\ (forall e, o = Returned (Some e) -> conn dw' = None)
  /\ (o = Panicked -> conn dw' = None).
Proof.
  induction perm as [|idx rest IH]; intros clk dw lastErr o clk' dw' evs C;
    simpl.
  - intros H. inversion H; subst. unfold held. rewrite C.
    repeat split; auto.
  - destruct (nth_error (servers dw) idx) as [addr|].
    2:{ intros H. inversion H; subst. unfold held. rewrite C.
        repeat split; auto; unfold dials, count; simpl; lia. }
    destruct (ch_Dial env clk _) as [code|].
    + destruct (tryServers env w rest (S clk) _ _) as [[[o1 c1] d1] e1] eqn:T.
      intros H. inversion H; subst; clear H.
      apply IH in T; [|exact C]. destruct T as (T1 & T2 & T3 & T4).
      tally_events. repeat split; auto; lia.
    + destruct (client_Ping env (S clk) _) as [code|].
      * destruct (tryServers env w rest (S (S clk)) _ _)
          as [[[o1 c1] d1] e1] eqn:T.
        intros H. inversion H; subst; clear H.
        apply IH in T; [|exact C]. destruct T as (T1 & T2 & T3 & T4).
        tally_events. repeat split; auto; lia.
      * intros H. inversion H; subst; clear H.
        tally_events. unfold held. simpl.
        repeat split; try discriminate; lia.
Qed.

Lemma connectDestination_ledger w clk dw o clk' dw' evs :
  connectDestination env w clk dw = (o, clk', dw', evs) ->
  (held dw + opens evs = closes evs + held dw')%nat
  /\ (perm_ok env -> dials evs <= List.length (servers dw))%nat
  /\ (forall e, o = Returned (Some e) -> conn dw' = None)
  /\ (o = Panicked -> conn dw' = None).
Proof.
  unfold connectDestination.
  destruct (conn dw) as [cl|] eqn:C.
  - destruct (client_Ping env clk cl) as [code|].
    + destruct (tryServers env w _ (S clk) _ _) as [[[o1 c1] d1] e1] eqn:T.
      intros H. inversion H; subst; clear H.
      apply tryServers_ledger in T; [|reflexivity].
      destruct T as (T1 & T2 & T3 & T4).
      split; [|split; [|split; assumption]].
      * unfold held at 1. rewrite C. tally_events. lia.
      * intros P. simpl in T2. rewrite (rand_Perm_length _ _ P) in T2.
        tally_events. exact T2.
    + intros H. inversion H; subst; clear H.
      split; [|split; [|split; discriminate]].
      * tally_events. lia.
      * intros _. tally_events. lia.
  - intros T. pose proof T as T'.
    apply tryServers_ledger in T; [|exact C].
    destruct T as (T1 & T2 & T3 & T4).
    split; [|split; [|split; assumption]].
    + unfold held at 1. rewrite C. simpl. exact T1.
    + intros P. rewrite (rand_Perm_length _ _ P) in T2. exact T2.
Qed.

(** ** The ledger of a write attempt *)

Local Ltac op_split w settings clk dw :=
  unfold operation;
  match goal with
  | |- context [(0 <? ?m) && (?m <? ?a)] =>
    destruct ((0 <? m) && (m <? a)) eqn:G
  end;
  [ intros H; inversion H; subst; clear H
  | destruct (connectDestination env w clk dw) as [[[oc c2] d2] e2] eqn:CD;
    pose proof (connectDestination_inv env _ _ _ _ _ _ _ CD)
      as (S1 & F1 & _ & R1 & _);
    pose proof (connectDestination_ledger _ _ _ _ _ _ _ CD)
      as (L1 & L2 & L3 & L4);
    destruct oc as [[err|]| |];
    [ destruct (connectDestination_error env _ _ _ _ _ _ _ CD) as (code0 & ->);
      intros H; inversion H; subst; clear H
    | destruct (conn d2) as [cl|] eqn:CN;
      [ destruct (client_Do env c2 cl (insertQuery w settings))
          as [code|] eqn:DO;
        intros H; inversion H; subst; clear H
      | intros H; inversion H; subst; clear H ]
    | intros H; inversion H; subst; clear H
    | congruence ] ].

Local Ltac connect_zero F1 :=
  rewrite ?(count_zero _ _ _ (connect_no_ProtoInput _) F1),
          ?(count_zero _ _ _ (connect_no_Do _) F1),
          ?(count_zero _ _ _ (connect_no_Attempt _ _) F1),
          ?(count_zero _ _ _ (connect_no_Write _ _) F1),
          ?(count_zero _ _ _ (connect_no_Exceeded _ _) F1),
          ?(count_zero _ _ _ (connect_no_Error _ _) F1),
          ?(count_zero _ _ _ (connect_no_Sleep _) F1).

Lemma Forall_knownPhase_connect d evs :
  Forall (fun e => connectEvent d e = true) evs -> Forall knownPhase evs.
Proof.
  intros F. eapply Forall_impl; [|exact F].
  intros e H. eapply connectEvent_knownPhase. exact H.
Qed.

(** One call of the retried closure: it keeps the count of connections
    (held before plus opened is closed plus held after), dials at most
    once per server and sends at most once, counts one error exactly when
    it fails with a network error, and it leaves a connection behind
    exactly when it does not fail. *)
Lemma operation_ledger w st m a clk dw oo a1 c1 d1 e1 :
  operation env w st m a clk dw = (oo, a1, c1, d1, e1) ->
  (held dw + opens e1 = closes e1 + held d1)%nat
  /\ (perm_ok env -> dials e1 <= List.length (servers dw))%nat
  /\ (sends e1 <= attemptsOf (name dw) e1)%nat
  /\ sleeps e1 = 0%nat
  /\ errorsOf (name dw) e1
     = (match oo with Returned (Some (NetError _)) => 1 | _ => 0 end)%nat
  /\ Forall knownPhase e1
  /\ (oo = Returned None -> conn d1 <> None)
  /\ (forall code, oo = Returned (Some (NetError code)) -> conn d1 = None).
Proof.
  op_split w st clk dw;
    try (pose proof (Forall_knownPhase_connect _ _ F1) as KP);
    (split; [tally_events; connect_zero F1; unfold held in *;
             rewrite ?CN in *; simpl; lia|]);
    (split; [intros P; try specialize (L2 P); tally_events; lia|]);
    (split; [tally_events; connect_zero F1; simpl; lia|]);
    (split; [tally_events; connect_zero F1; reflexivity|]);
    (split; [tally_events; connect_zero F1; reflexivity|]);
    (split; [repeat first
               [ apply Forall_nil
               | apply Forall_cons;
                 [intros ? ? E; inversion E; subst; auto|]
               | apply Forall_app; split
               | exact KP ]|]);
    split; intros; try discriminate; try congruence; eauto.
Qed.

(** ** The ledger of a task *)

(** The retry loop: the count of connections is kept; the dials are at
    most the attempts times the servers, the sends and the sleeps at most
    the attempts; every attempt is a successful write, a counted error, or
    the one that panicked; the loop returns nil with a connection in hand
    and an error without one, unless the budget was spent before the
    first attempt. *)
Lemma Retry_ledger w st m fuel : forall a clk dw o clk' dw' evs,
  Retry env fuel w st m a clk dw = (o, clk', dw', evs) ->
  (held dw + opens evs = closes evs + held dw')%nat
  /\ (perm_ok env ->
      dials evs <= attemptsOf (name dw) evs * List.length (servers dw))%nat
  /\ (sends evs <= attemptsOf (name dw) evs)%nat
  /\ (sleeps evs <= attemptsOf (name dw) evs)%nat
  /\ attemptsOf (name dw) evs
     = (writesOf (name dw) evs + errorsOf (name dw) evs
        + match o with Panicked => 1 | _ => 0 end)%nat
  /\ Forall knownPhase evs
  /\ (o = Returned None -> conn dw' <> None)
  /\ (forall e, o = Returned (Some e) ->
        (exhausted m a = true /\ dw' = dw) \/ conn dw' = None).
Proof.
  induction fuel as [|fuel IH]; intros a clk dw o clk' dw' evs.
  - simpl. intros H. inversion H; subst.
    repeat split; auto; try discriminate; tally_events; lia.
  - simpl.
    destruct (operation env w st m a clk dw)
      as [[[[oo a1] c1] d1] e1] eqn:OP.
    pose proof (operation_inv env _ _ _ _ _ _ _ _ _ _ _ OP)
      as (S1 & _ & _ & _ & _ & _).
    pose proof (operation_ledger _ _ _ _ _ _ _ _ _ _ _ OP)
      as (H1 & H2 & H3 & H4 & H5 & H6 & H7 & H8).
    assert (EN : name d1 = name dw) by apply S1.
    assert (ES : servers d1 = servers dw) by apply S1.
    destruct (operation_classify env _ _ _ _ _ _ _ _ _ _ _ OP)
      as [(G & -> & NA & NE & NW & -> & ->)
         |(G & NA & NE & [(-> & NW)|[(-> & NW)|(code & -> & NW)]])].
    + intros H. inversion H; subst; clear H.
      rewrite NA in *. rewrite NW, H5.
      split; [exact H1|]. split; [intros P|].
      { assert (D0 : dials evs = 0%nat).
        { revert OP. unfold operation. rewrite G.
          intros X. inversion X; subst. reflexivity. }
        lia. }
      split; [lia|]. split; [lia|]. split; [reflexivity|].
      split; [exact H6|]. split; [discriminate|].
      intros e _. left. split; [exact G|reflexivity].
    + intros H. inversion H; subst; clear H.
      rewrite NA in *. rewrite NW, H5.
      split; [exact H1|]. split; [intros P; specialize (H2 P); lia|].
      split; [lia|]. split; [lia|]. split; [reflexivity|].
      split; [exact H6|]. split; [intros _; apply H7; reflexivity|].
      intros e X. discriminate X.
    + intros H. inversion H; subst; clear H.
      rewrite NA in *. rewrite NW, H5.
      split; [exact H1|]. split; [intros P; specialize (H2 P); lia|].
      split; [lia|]. split; [lia|]. split; [reflexivity|].
      split; [exact H6|]. split; [discriminate|].
      intros e X. discriminate X.
    + specialize (H8 code eq_refl).
      destruct (ctx_Done env c1).
      { intros H. inversion H; subst; clear H.
        rewrite NA in *. rewrite NW, H5.
        split; [exact H1|]. split; [intros P; specialize (H2 P); lia|].
        split; [lia|]. split; [lia|]. split; [reflexivity|].
        split; [exact H6|]. split; [discriminate|].
        intros e _. right. exact H8. }
      destruct (ctx_Done env (S c1)).
      { intros H. inversion H; subst; clear H.
        tally_events. rewrite NA in *. rewrite NW, H5.
        split; [lia|]. split; [intros P; specialize (H2 P); lia|].
        split; [lia|]. split; [lia|]. split; [reflexivity|].
        split; [apply Forall_app; split; [exact H6|];
                constructor; [intros ? ? E; discriminate E|constructor]|].
        split; [discriminate|].
        intros e _. right. exact H8. }
      destruct (Retry env fuel w st m a1 (S c1) d1)
        as [[[o2 c2] d2] e2] eqn:RE.
      intros H. inversion H; subst; clear H.
      apply IH in RE.
      destruct RE as (I1 & I2 & I3 & I4 & I5 & I6 & I7 & I8).
      rewrite EN, ES in *.
      tally_events. rewrite NA in *. rewrite NW, H5.
      split; [lia|].
      split; [intros P; specialize (H2 P); specialize (I2 P); simpl; lia|].
      split; [lia|]. split; [lia|]. split; [lia|].
      split; [apply Forall_app; split; [exact H6|];
              constructor; [intros ? ? E; discriminate E|exact I6]|].
      split; [exact I7|].
      intros e X. right.
      destruct (I8 e X) as [(_ & ->)|Y]; [exact H8|exact Y].
Qed.

(** ** The ledger of a flush *)

Lemma flushSingleDestination_ledger fuel w clk dw o clk' dw' evs :
  flushSingleDestination env K fuel w clk dw = (o, clk', dw', evs) ->
  (held dw + opens evs = closes evs + held dw')%nat.
Proof.
  unfold flushSingleDestination. intros H.
  apply Retry_ledger in H. apply H.
Qed.

Lemma errgroup_ledger fuel w dws : forall clk o clk' dws' evs,
  errgroup env K fuel w clk dws = (o, clk', dws', evs) ->
  (heldAll dws + opens evs = closes evs + heldAll dws')%nat
  /\ (Forall conn_in_servers dws -> Forall conn_in_servers dws').
Proof.
  induction dws as [|dw rest IH]; intros clk o clk' dws' evs; simpl.
  - intros H. inversion H; subst. split; [reflexivity|auto].
  - destruct (flushSingleDestination env K fuel w clk dw)
      as [[[o1 c1] d1] e1] eqn:F.
    pose proof (flushSingleDestination_ledger _ _ _ _ _ _ _ _ F) as L1.
    pose proof (flushSingleDestination_inv env K _ _ _ _ _ _ _ _ F)
      as (_ & _ & _ & C1 & _).
    assert (X : forall os c2 r2 e2,
      errgroup env K fuel w c1 rest = (os, c2, r2, e2) ->
      (heldAll (dw :: rest) + opens (e1 ++ e2)
       = closes (e1 ++ e2) + heldAll (d1 :: r2))%nat
      /\ (Forall conn_in_servers (dw :: rest) ->
          Forall conn_in_servers (d1 :: r2))).
    { intros os c2 r2 e2 G. apply IH in G. destruct G as (G1 & G2).
      split.
      - unfold heldAll in *. simpl. tally_events. lia.
      - intros A. inversion A; subst. constructor; auto. }
    destruct o1 as [x| |].
    + destruct (errgroup env K fuel w c1 rest) as [[[os c2] r2] e2] eqn:G.
      intros H. inversion H; subst; clear H. eapply X; eauto.
    + intros H. inversion H; subst; clear H. split.
      * unfold heldAll in *. simpl. lia.
      * intros A. inversion A; subst. constructor; auto.
    + destruct (errgroup env K fuel w c1 rest) as [[[os c2] r2] e2] eqn:G.
      intros H. inversion H; subst; clear H. eapply X; eauto.
Qed.

(** A predicate that holds of no event of a task, of no log line and not
    of the clear holds of no event of a flush. *)
Lemma Flush_count_zero (p : Event -> bool) fuel clk w :
  (forall d e, taskEvent d e = true -> p e = false) ->
  (forall err strs ints msg, p (EvLog err strs ints msg) = false) ->
  p EvClear = false ->
  count p (eventsOf (Flush env K fuel clk w)) = 0%nat.
Proof.
  intros PT PL PC.
  destruct (Flush env K fuel clk w) as [[[o c1] w1] evs] eqn:F.
  unfold eventsOf. simpl.
  destruct (Z.eq_dec (FlowCount (bf w)) 0) as [E|NE].
  - unfold Flush in F. rewrite E in F. simpl in F.
    inversion F; subst. reflexivity.
  - destruct (Flush_nonempty env K _ _ _ _ _ _ _ NE F)
      as (og & dws & evg & G & X).
    pose proof (errgroup_inv env K _ _ _ _ _ _ _ _ G) as (_ & FE & _).
    assert (Z0 : count p evg = 0%nat).
    { clear -FE PT. induction FE as [|e l (dw & _ & T) _ IH]; [reflexivity|].
      rewrite count_cons, IH, (PT _ _ T). reflexivity. }
    destruct og as [[e|]| |]; destruct X as (_ & _ & ->);
      rewrite ?count_app, ?Z0; unfold count; simpl;
      rewrite ?PL, ?PC; reflexivity.
Qed.

(** What [Flush] leaves untouched, and the invariants it keeps. *)
Lemma Flush_keeps fuel clk w o clk' w' evs :
  Flush env K fuel clk w = (o, clk', w', evs) ->
  c w' = c w /\ worker w' = worker w /\ last w' = last w
  /\ Forall2 same_static (destWriters w) (destWriters w')
  /\ (Forall conn_in_servers (destWriters w) ->
      Forall conn_in_servers (destWriters w'))
  /\ (heldAll (destWriters w) + opens evs
      = closes evs + heldAll (destWriters w'))%nat.
Proof.
  intros F.
  destruct (Z.eq_dec (FlowCount (bf w)) 0) as [E|NE].
  - unfold Flush in F. rewrite E in F. simpl in F.
    inversion F; subst. repeat split; auto.
    clear. induction (destWriters w'); constructor; auto.
    repeat split.
  - destruct (Flush_nonempty env K _ _ _ _ _ _ _ NE F)
      as (og & dws & evg & G & X).
    pose proof (errgroup_inv env K _ _ _ _ _ _ _ _ G) as (SS & _).
    pose proof (errgroup_ledger _ _ _ _ _ _ _ _ G) as (L & CI).
    destruct og as [[e|]| |]; destruct X as (_ & -> & ->); simpl;
      repeat split; auto; tally_events; lia.
Qed.

End Ledger.

(** ** The shape of a call of FinalizeAndSend *)

Section CallShape.

Variable env : Env.
Variable K : positive.

(** The metric that closes a call, by its status. *)
Lemma FinalizeAndSend_shape fuel clk w o clk' w' evs :
  triggered env clk w = true ->
  FinalizeAndSend env K fuel clk w = (o, clk', w', evs) ->
  exists oF wF evsF,
    Flush env K fuel clk (set_bf w (Finalize env (bf w)))
    = (oF, clk', wF, evsF)
    /\ evs = EvFinalize
             :: (if negb (IsZero (last w))
                 then [EvMetric (waitTime_Observe
                                   (Sub (time_Now env clk) (last w)))]
                 else [])
             ++ evsF
             ++ match o with
                | Returned WorkerStatusOverloaded => [EvMetric overloaded_Inc]
                | Returned WorkerStatusUnderloaded =>
                  [EvMetric underloaded_Inc]
                | _ => []
                end
    /\ match o with
       | Returned _ => w' = set_last wF (time_Now env clk')
       | _ => w' = wF
       end.
Proof.
  unfold triggered, FinalizeAndSend. simpl. intros ->.
  destruct (Flush env K fuel clk (set_bf w (Finalize env (bf w))))
    as [[[oF clk1] wF] evsF].
  destruct oF as [[]| |].
  - destruct (MaximumBatchSize (primaryConfig (c w))
              <=? to_uint (FlowCount (Finalize env (bf w))));
      [|destruct (to_uint (FlowCount (Finalize env (bf w)))
                  <=? MaximumBatchSize (primaryConfig (c w)) / Z.pos K)];
      intros H; inversion H; subst; clear H;
      exists (Returned tt), wF, evsF; rewrite ?app_nil_r;
      repeat split; reflexivity.
  - intros H; inversion H; subst; clear H.
    exists Panicked, w', evsF. rewrite app_nil_r. repeat split; reflexivity.
  - intros H; inversion H; subst; clear H.
    exists Running, w', evsF. rewrite app_nil_r. repeat split; reflexivity.
Qed.

Lemma count_zero_In (p : Event -> bool) (l : list Event) (e : Event) :
  count p l = 0%nat -> In e l -> p e = false.
Proof.
  induction l as [|x l IH]; [intros _ []|].
  rewrite count_cons. intros H [<-|I].
  - destruct (p x); [discriminate H|reflexivity].
  - apply IH; [|exact I]. destruct (p x); [discriminate H|exact H].
Qed.

End CallShape.

(** * Further results *)



(** X3. The load counters follow the status of the call: a call that
    answers Overloaded has incremented the overloaded counter once and
    the underloaded counter not at all, one that answers Underloaded the
    reverse, and any other call (the status OK, a panic, a flush that has
    not returned) has incremented neither. *)
Theorem FinalizeAndSend_load_counters
  (env : Env) (K : positive) (fuel clk : nat) (w : realWorker) :
  let r := FinalizeAndSend env K fuel clk w in
  count isOverloaded (eventsOf r)
  = (match outcomeOf r with
     | Returned WorkerStatusOverloaded => 1
     | _ => 0
     end)%nat
  /\ count isUnderloaded (eventsOf r)
     = (match outcomeOf r with
        | Returned WorkerStatusUnderloaded => 1
        | _ => 0
        end)%nat.
Proof.
  cbv zeta.
  destruct (triggered env clk w) eqn:T.
  - destruct (FinalizeAndSend env K fuel clk w) as [[[o c1] w1] evs] eqn:F.
    destruct (FinalizeAndSend_shape env K _ _ _ _ _ _ _ T F)
      as (oF & wF & evsF & FF & -> & _).
    unfold eventsOf, outcomeOf. simpl.
    assert (Z1 : count isOverloaded evsF = 0%nat).
    { pose proof (Flush_count_zero env K isOverloaded fuel clk
                    (set_bf w (Finalize env (bf w)))) as X.
      rewrite FF in X. apply X.
      - intros d e. destruct e as [| | | | | | | | | |[]]; simpl; auto;
          discriminate.
      - reflexivity.
      - reflexivity. }
    assert (Z2 : count isUnderloaded evsF = 0%nat).
    { pose proof (Flush_count_zero env K isUnderloaded fuel clk
                    (set_bf w (Finalize env (bf w)))) as X.
      rewrite FF in X. apply X.
      - intros d e. destruct e as [| | | | | | | | | |[]]; simpl; auto;
          discriminate.
      - reflexivity.
      - reflexivity. }
    rewrite !count_cons, !count_app, Z1, Z2.
    destruct (negb (IsZero (last w))); destruct o as [[| |]| |];
      split; reflexivity.
  - rewrite (FinalizeAndSend_idle env K fuel clk w T).
    split; reflexivity.
Qed.

(** X4. The wait time is observed at most once in a call, and exactly
    when the call flushes on a worker that has flushed before; the value
    observed is the time since the last flush that the thresholds were
    compared with. *)
Theorem FinalizeAndSend_wait_time
  (env : Env) (K : positive) (fuel clk : nat) (w : realWorker) :
  let r := FinalizeAndSend env K fuel clk w in
  count isWaitTime (eventsOf r)
  = (if triggered env clk w && negb (IsZero (last w)) then 1 else 0)%nat
  /\ forall d, In (EvMetric (waitTime_Observe d)) (eventsOf r) ->
       d = Sub (time_Now env clk) (last w).
Proof.
  cbv zeta.
  destruct (triggered env clk w) eqn:T.
  - destruct (FinalizeAndSend env K fuel clk w) as [[[o c1] w1] evs] eqn:F.
    destruct (FinalizeAndSend_shape env K _ _ _ _ _ _ _ T F)
      as (oF & wF & evsF & FF & -> & _).
    unfold eventsOf. simpl.
    assert (Z1 : count isWaitTime evsF = 0%nat).
    { pose proof (Flush_no_waitTime env K fuel clk
                    (set_bf w (Finalize env (bf w)))) as X.
      rewrite FF in X. exact X. }
    split.
    + rewrite !count_cons, !count_app, Z1.
      destruct (negb (IsZero (last w))); destruct o as [[| |]| |];
        reflexivity.
    + intros d [E|I]; [discriminate E|].
      apply in_app_iff in I. destruct I as [I|I].
      * destruct (negb (IsZero (last w))); [|destruct I].
        destruct I as [E|[]]. inversion E. reflexivity.
      * apply in_app_iff in I. destruct I as [I|I].
        -- apply (count_zero_In _ _ _ Z1) in I. discriminate I.
        -- destruct o as [[| |]| |]; simpl in I;
             try destruct I as [E|[]]; try discriminate E; destruct I.
  - rewrite (FinalizeAndSend_idle env K fuel clk w T).
    split; [reflexivity|].
    intros d [E|[]]. discriminate E.
Qed.

(** X5. A flush holds the next one back: after a call that flushed and
    returned, a later call whose clock is less than [MaximumWaitTime]
    past the return, on a buffer below [MaximumBatchSize], only finalizes
    the buffer and answers OK ([MaximumBatchSize] within the range of
    [int]). *)
Theorem FinalizeAndSend_holds_back
  (env : Env) (K : positive) (fuel clk : nat) (w : realWorker)
  (st : WorkerStatus) (clk1 : nat) (w1 : realWorker) (evs : list Event)
  (fuel2 clk2 : nat) :
  0 <= MaximumBatchSize (primaryConfig (c w)) <= max_int ->
  triggered env clk w = true ->
  FinalizeAndSend env K fuel clk w = (Returned st, clk1, w1, evs) ->
  FlowCount (Finalize env (bf w1)) < MaximumBatchSize (primaryConfig (c w)) ->
  Sub (time_Now env clk2) (time_Now env clk1)
  < MaximumWaitTime (primaryConfig (c w)) ->
  last w1 = time_Now env clk1
  /\ FinalizeAndSend env K fuel2 clk2 w1
     = (Returned WorkerStatusOK, clk2, set_bf w1 (Finalize env (bf w1)),
        [EvFinalize]).
Proof.
  intros R T F HS HW.
  destruct (FinalizeAndSend_shape env K _ _ _ _ _ _ _ T F)
    as (oF & wF & evsF & FF & _ & ->).
  destruct (Flush_keeps env K _ _ _ _ _ _ _ FF) as (C1 & _).
  simpl in C1.
  split; [reflexivity|].
  apply FinalizeAndSend_threshold_in_range.
  - simpl. rewrite C1. exact R.
  - unfold thresholdCrossed. simpl. rewrite C1. simpl in HS. lia.
Qed.

Lemma FinalizeAndSend_holds_back_witness :
  let w := NewWorker Examples.dual 0 (Examples.batch 10) in
  let r := FinalizeAndSend Examples.net Examples.K10 2 0 w in
  0 <= MaximumBatchSize (primaryConfig (c w)) <= max_int
  /\ triggered Examples.net 0 w = true
  /\ FinalizeAndSend Examples.net Examples.K10 2 (clockOf r) (stateOf r)
     = (Returned WorkerStatusOK, clockOf r,
        set_bf (stateOf r) (Finalize Examples.net (bf (stateOf r))),
        [EvFinalize]).
Proof.
  cbv zeta.
  assert (H1 : 0 <= MaximumBatchSize
                      (primaryConfig
                         (c (NewWorker Examples.dual 0 (Examples.batch 10))))
               <= max_int) by (vm_compute; split; discriminate).
  assert (H2 : triggered Examples.net 0
                 (NewWorker Examples.dual 0 (Examples.batch 10)) = true)
    by (vm_compute; reflexivity).
  split; [exact H1|]. split; [exact H2|].
  refine (proj2 (FinalizeAndSend_holds_back Examples.net Examples.K10 2 0
                   (NewWorker Examples.dual 0 (Examples.batch 10))
                   WorkerStatusUnderloaded _ _ _ 2 _ H1 H2 _ _ _)).
  - vm_compute. reflexivity.
  - vm_compute. reflexivity.
  - vm_compute. reflexivity.
Defined.

(** X6. A call of [FinalizeAndSend] changes neither the component, nor
    the number of the worker, nor the name, the servers, the async
    settings, the configuration or the retry limit of any writer; and
    when every live connection is to a server of its writer before the
    call, as it is on a worker fresh from [NewWorker], so it is after. *)
Theorem FinalizeAndSend_keeps_writers
  (env : Env) (K : positive) (fuel clk : nat) (w : realWorker) :
  let r := FinalizeAndSend env K fuel clk w in
  c (stateOf r) = c w
  /\ worker (stateOf r) = worker w
  /\ Forall2 same_static (destWriters w) (destWriters (stateOf r))
  /\ (Forall conn_in_servers (destWriters w) ->
      Forall conn_in_servers (destWriters (stateOf r)))
  /\ (forall cm i b, Forall conn_in_servers (destWriters (NewWorker cm i b))).
Proof.
  cbv zeta. split; [|split; [|split; [|split]]].
  5:{ intros cm i b. apply Forall_forall. intros dw I. simpl in I.
      apply in_map_iff in I. destruct I as (d & <- & _).
      intros cl E. unfold newWriter in E.
      destruct (ChGoOptions (dc_db d)). discriminate E. }
  all: destruct (triggered env clk w) eqn:T;
    [ destruct (FinalizeAndSend env K fuel clk w) as [[[o c1] w1] evs] eqn:F;
      destruct (FinalizeAndSend_shape env K _ _ _ _ _ _ _ T F)
        as (oF & wF & evsF & FF & _ & W);
      destruct (Flush_keeps env K _ _ _ _ _ _ _ FF)
        as (C1 & C2 & _ & C4 & C5 & _);
      unfold stateOf; simpl in *;
      assert (DW : destWriters w1 = destWriters wF
                   /\ c w1 = c wF /\ worker w1 = worker wF)
        by (destruct o; subst w1; repeat split);
      destruct DW as (D1 & D2 & D3); rewrite ?D1, ?D2, ?D3; auto
    | rewrite (FinalizeAndSend_idle env K fuel clk w T);
      unfold stateOf; simpl; auto ].
  clear. induction (destWriters w); constructor; auto. repeat split.
Qed.

(** X7. A flush leaks no connection: the connections the writers hold
    before it, plus those opened by a dial that went well, are those
    closed plus those the writers hold after it, whether the flush
    returns, panics or is still retrying. *)
Theorem Flush_connections_conserved
  (env : Env) (K : positive) (fuel clk : nat) (w : realWorker) :
  let r := Flush env K fuel clk w in
  (heldAll (destWriters w) + opens (eventsOf r)
   = closes (eventsOf r) + heldAll (destWriters (stateOf r)))%nat.
Proof.
  cbv zeta.
  destruct (Flush env K fuel clk w) as [[[o c1] w1] evs] eqn:F.
  destruct (Flush_keeps env K _ _ _ _ _ _ _ F) as (_ & _ & _ & _ & _ & L).
  exact L.
Qed.

(** X8. A task writes the batch to its destination at most once, and
    exactly when it returns nil; it returns nil with a live connection in
    the writer, and it returns an error (the retry budget spent, the
    context cancelled) with none. *)
Theorem flushSingleDestination_result
  (env : Env) (K : positive) (fuel : nat) (w : realWorker) (clk : nat)
  (dw : destinationWriter) :
  let r := flushSingleDestination env K fuel w clk dw in
  (writesOf (name dw) (eventsOf r) <= 1)%nat
  /\ (writesOf (name dw) (eventsOf r) = 1%nat <->
      outcomeOf r = Returned None)
  /\ (outcomeOf r = Returned None -> exists cl, conn (stateOf r) = Some cl)
  /\ (forall e, outcomeOf r = Returned (Some e) -> conn (stateOf r) = None).
Proof.
  cbv zeta. unfold flushSingleDestination.
  set (m := if maxRetries dw =? 0 then -1 else maxRetries dw).
  destruct (Retry env fuel w (insertSettings K w dw) m 0 clk dw)
    as [[[o c1] d1] e1] eqn:RE.
  unfold eventsOf, outcomeOf, stateOf. simpl.
  destruct (Retry_outcome env _ _ _ _ _ _ _ _ _ _ _ RE) as (_ & W & _).
  destruct (Retry_ledger env _ _ _ _ _ _ _ _ _ _ _ RE)
    as (_ & _ & _ & _ & _ & _ & L7 & L8).
  rewrite W. split; [|split; [|split]].
  - destruct o as [[|]| |]; lia.
  - destruct o as [[|]| |]; split; intros H; try discriminate H;
      reflexivity.
  - intros H. specialize (L7 H).
    destruct (conn d1) as [cl|]; [eauto|congruence].
  - intros e H. destruct (L8 e H) as [(G & _)|X]; [|exact X].
    exfalso. revert G. unfold exhausted. change (to_int (0 + 1)) with 1.
    intros G. apply andb_true_iff in G. rewrite !Z.ltb_lt in G. lia.
Qed.

(** X9. The attempts of a task are accounted for: each is a successful
    write or one increment of the destination's error counter, but for
    the attempt that panicked; the increments carry the phase "connect"
    or "send" and no other; and the task sends and sleeps at most once
    per attempt. *)
Theorem flushSingleDestination_accounting
  (env : Env) (K : positive) (fuel : nat) (w : realWorker) (clk : nat)
  (dw : destinationWriter) :
  let r := flushSingleDestination env K fuel w clk dw in
  attemptsOf (name dw) (eventsOf r)
  = (writesOf (name dw) (eventsOf r) + errorsOf (name dw) (eventsOf r)
     + match outcomeOf r with Panicked => 1 | _ => 0 end)%nat
  /\ Forall knownPhase (eventsOf r)
  /\ (sends (eventsOf r) <= attemptsOf (name dw) (eventsOf r))%nat
  /\ (sleeps (eventsOf r) <= attemptsOf (name dw) (eventsOf r))%nat.
Proof.
  cbv zeta. unfold flushSingleDestination.
  set (m := if maxRetries dw =? 0 then -1 else maxRetries dw).
  destruct (Retry env fuel w (insertSettings K w dw) m 0 clk dw)
    as [[[o c1] d1] e1] eqn:RE.
  unfold eventsOf, outcomeOf. simpl.
  destruct (Retry_ledger env _ _ _ _ _ _ _ _ _ _ _ RE)
    as (_ & _ & L3 & L4 & L5 & L6 & _).
  repeat split; assumption.
Qed.

(** X10. When [rand.Perm] answers permutations, a task dials at most
    once per server in each attempt; with a retry budget below the
    largest [int] it dials at most budget times servers, whatever the
    network does. *)
Theorem flushSingleDestination_dial_bound
  (env : Env) (K : positive) (fuel : nat) (w : realWorker) (clk : nat)
  (dw : destinationWriter) :
  perm_ok env ->
  let r := flushSingleDestination env K fuel w clk dw in
  (dials (eventsOf r)
   <= attemptsOf (name dw) (eventsOf r) * List.length (servers dw))%nat
  /\ (0 < maxRetries dw < max_int ->
      Z.of_nat (dials (eventsOf r))
      <= maxRetries dw * Z.of_nat (List.length (servers dw))).
Proof.
  intros P. cbv zeta. unfold flushSingleDestination.
  destruct (Retry env fuel w (insertSettings K w dw)
              (if maxRetries dw =? 0 then -1 else maxRetries dw) 0 clk dw)
    as [[[o c1] d1] e1] eqn:RE.
  unfold eventsOf. simpl.
  destruct (Retry_ledger env _ _ _ _ _ _ _ _ _ _ _ RE) as (_ & L2 & _).
  specialize (L2 P). split; [exact L2|].
  intros Hm. revert RE.
  destruct (Z.eqb_spec (maxRetries dw) 0) as [E|_]; [lia|]. intros RE.
  destruct (Retry_bounded env _ _ _ _ _ _ _ _ _ _ _ Hm RE ltac:(lia))
    as (B & _).
  nia.
Qed.

Lemma flushSingleDestination_dial_bound_witness :
  let r := flushSingleDestination Examples.net Examples.K10 3
             (NewWorker Examples.dual 0 (Examples.batch 10)) 0
             Examples.azureWriter in
  perm_ok Examples.net
  /\ dials (eventsOf r) = 1%nat
  /\ (dials (eventsOf r)
      <= attemptsOf (name Examples.azureWriter) (eventsOf r)
         * List.length (servers Examples.azureWriter))%nat.
Proof.
  cbv zeta. split; [exact net_perm_ok|]. split; [vm_compute; reflexivity|].
  exact (proj1 (flushSingleDestination_dial_bound Examples.net Examples.K10 3
                  (NewWorker Examples.dual 0 (Examples.batch 10)) 0
                  Examples.azureWriter net_perm_ok)).
Defined.

(** X11. Cancellation comes before the retry budget: on a destination
    that is down, with a context that is already cancelled, a task still
    makes one attempt, then returns [ctx.Err()] without a back-off sleep
    and without counting a retry exhaustion, whatever its retry limit. *)
Theorem flushSingleDestination_cancelled_at_once
  (env : Env) (K : positive) (fuel : nat) (w : realWorker) (clk : nat)
  (dw : destinationWriter) :
  perm_ok env ->
  down env dw ->
  (forall t, (clk <= t)%nat -> ctx_Done env t = true) ->
  let r := flushSingleDestination env K (S fuel) w clk dw in
  outcomeOf r = Returned (Some ContextError)
  /\ attemptsOf (name dw) (eventsOf r) = 1%nat
  /\ sleeps (eventsOf r) = 0%nat
  /\ exceededOf (name dw) (eventsOf r) = 0%nat
  /\ writesOf (name dw) (eventsOf r) = 0%nat.
Proof.
  intros P D CT. cbv zeta. unfold flushSingleDestination.
  set (m := if maxRetries dw =? 0 then -1 else maxRetries dw).
  set (st := insertSettings K w dw).
  assert (G : (0 <? m) && (m <? to_int (0 + 1)) = false).
  { change (to_int (0 + 1)) with 1.
    apply andb_false_iff. rewrite !Z.ltb_ge. lia. }
  simpl.
  destruct (operation env w st m 0 clk dw)
    as [[[[oo a1] c1] d1] e1] eqn:OP.
  destruct (operation_down env _ _ _ _ _ _ _ _ _ _ _ P D OP G)
    as ((code & ->) & _).
  pose proof (operation_inv env _ _ _ _ _ _ _ _ _ _ _ OP)
    as (_ & _ & L1 & _).
  pose proof (operation_ledger env _ _ _ _ _ _ _ _ _ _ _ OP)
    as (_ & _ & _ & SL & _).
  destruct (operation_classify env _ _ _ _ _ _ _ _ _ _ _ OP)
    as [(G' & _)|(_ & NA & NE & [(X & _)|[(X & _)|(code' & _ & NW)]])];
    try congruence; try discriminate X.
  rewrite (CT c1 L1). unfold outcomeOf, eventsOf. simpl.
  repeat split; assumption.
Qed.

Lemma flushSingleDestination_cancelled_at_once_witness :
  let r := flushSingleDestination Examples.netCancelled Examples.K10 4
             (NewWorker Examples.stuck 0 (Examples.batch 5)) 5
             Examples.stuckWriter in
  perm_ok Examples.netCancelled
  /\ (forall t, (5 <= t)%nat -> ctx_Done Examples.netCancelled t = true)
  /\ outcomeOf r = Returned (Some ContextError)
  /\ attemptsOf "primary" (eventsOf r) = 1%nat.
Proof.
  cbv zeta. split; [exact netCancelled_perm_ok|].
  split; [exact netCancelled_cancelled|].
  destruct (flushSingleDestination_cancelled_at_once Examples.netCancelled
              Examples.K10 3
              (NewWorker Examples.stuck 0 (Examples.batch 5)) 5
              Examples.stuckWriter netCancelled_perm_ok
              stuckWriter_down_cancelled netCancelled_cancelled)
    as (A & B & _).
  split; [exact A|exact B].
Defined.

(** X12. A call that crosses the wait threshold on an empty buffer goes
    to no destination: the clock does not move, the writers are as they
    were, no event is a network call or the metric of a destination;
    the time of the last flush is reset all the same and, for a positive
    [MaximumBatchSize], the status is Underloaded. *)
Theorem FinalizeAndSend_empty_buffer
  (env : Env) (K : positive) (fuel clk : nat) (w : realWorker) :
  triggered env clk w = true ->
  FlowCount (Finalize env (bf w)) = 0 ->
  0 < MaximumBatchSize (primaryConfig (c w)) ->
  let r := FinalizeAndSend env K fuel clk w in
  outcomeOf r = Returned WorkerStatusUnderloaded
  /\ clockOf r = clk
  /\ destWriters (stateOf r) = destWriters w
  /\ last (stateOf r) = time_Now env clk
  /\ Forall offNetwork (eventsOf r).
Proof.
  intros T E M. cbv zeta.
  destruct (FinalizeAndSend env K fuel clk w) as [[[o c1] w1] evs] eqn:F.
  pose proof F as F'. revert F'.
  unfold FinalizeAndSend. unfold triggered in T. simpl. rewrite T.
  unfold Flush. simpl. rewrite E. simpl.
  change (to_uint 0) with 0.
  destruct (Z.leb_spec (MaximumBatchSize (primaryConfig (c w))) 0) as [X|_];
    [lia|].
  destruct (Z.leb_spec 0 (MaximumBatchSize (primaryConfig (c w)) / Z.pos K))
    as [_|X].
  2:{ assert (0 <= MaximumBatchSize (primaryConfig (c w)) / Z.pos K)
        by (apply Z.div_pos; lia). lia. }
  intros H. inversion H; subst; clear H.
  unfold outcomeOf, clockOf, stateOf, eventsOf. simpl.
  repeat split.
  constructor; [reflexivity|].
  destruct (negb (IsZero (last w))); simpl;
    repeat (constructor; [reflexivity|]); constructor.
Qed.

Lemma FinalizeAndSend_empty_buffer_witness :
  let w := NewWorker Examples.serverless 0 (Examples.batch 0) in
  let r := FinalizeAndSend Examples.net Examples.K10 1 0 w in
  triggered Examples.net 0 w = true
  /\ FlowCount (Finalize Examples.net (bf w)) = 0
  /\ 0 < MaximumBatchSize (primaryConfig (c w))
  /\ outcomeOf r = Returned WorkerStatusUnderloaded
  /\ Forall offNetwork (eventsOf r).
Proof.
  cbv zeta.
  assert (H1 : triggered Examples.net 0
                 (NewWorker Examples.serverless 0 (Examples.batch 0)) = true)
    by (vm_compute; reflexivity).
  assert (H3 : 0 < MaximumBatchSize
                     (primaryConfig
                        (c (NewWorker Examples.serverless 0
                              (Examples.batch 0)))))
    by (vm_compute; reflexivity).
  split; [exact H1|]. split; [reflexivity|]. split; [exact H3|].
  destruct (FinalizeAndSend_empty_buffer Examples.net Examples.K10 1 0
              (NewWorker Examples.serverless 0 (Examples.batch 0))
              H1 eq_refl H3) as (A & _ & _ & _ & B).
  split; [exact A|exact B].
Defined.

(** ** The error of a group *)

Section GroupError.

Variable env : Env.
Variable K : positive.

(** [g.Wait()] returns nil exactly when every task returned nil, and
    otherwise the error of one of the tasks. *)
Lemma errgroup_error fuel w dws : forall clk err clk' dws' evs,
  errgroup env K fuel w clk dws = (Returned err, clk', dws', evs) ->
  (err = None <->
   Forall (fun r => fst r = Returned None) (taskResults env K fuel w clk dws))
  /\ (forall e, err = Some e ->
        In (Returned (Some e))
           (map fst (taskResults env K fuel w clk dws))).
Proof.
  induction dws as [|dw rest IH]; intros clk err clk' dws' evs; simpl.
  - intros H. inversion H; subst. split; [split; auto|discriminate].
  - destruct (flushSingleDestination env K fuel w clk dw)
      as [[[o1 c1] d1] e1] eqn:F.
    destruct o1 as [x| |]; try discriminate.
    + destruct (errgroup env K fuel w c1 rest) as [[[os c2] r2] e2] eqn:G.
      intros H. inversion H; subst; clear H.
      match goal with
      | J : join _ _ _ = _ |- _ =>
        apply join_Returned in J;
        destruct J as (y1 & y2 & Y1 & -> & N & O)
      end.
      inversion Y1; subst y1. apply IH in G. destruct G as (G1 & G2).
      simpl. split.
      * rewrite N. split.
        -- intros (-> & Y). constructor; [reflexivity|]. apply G1. exact Y.
        -- intros A. inversion A as [|? ? B R]; subst. simpl in B.
           split; [congruence|]. apply G1. exact R.
      * intros e E. destruct O as [O|O]; rewrite O in E.
        -- left. congruence.
        -- right. apply G2. exact E.
    + destruct (errgroup env K fuel w c1 rest) as [[[os c2] r2] e2] eqn:G.
      intros H. inversion H; subst; clear H.
      match goal with
      | J : join _ _ _ = _ |- _ =>
        apply join_Returned in J; destruct J as (y1 & y2 & X & _)
      end.
      discriminate X.
Qed.

Lemma taskEnds_fst fuel w dws : forall clk,
  map fst (taskEnds env K fuel w clk dws)
  = map fst (taskResults env K fuel w clk dws).
Proof.
  induction dws as [|dw rest IH]; intros clk; simpl; [reflexivity|].
  destruct (flushSingleDestination env K fuel w clk dw) as [[[o1 c1] d1] e1].
  simpl. rewrite IH. reflexivity.
Qed.

(** The error [g.Wait()] returns is the one recorded first. *)
Lemma errgroup_first fuel w dws : forall clk err clk' dws' evs,
  errgroup env K fuel w clk dws = (Returned err, clk', dws', evs) ->
  forall e, err = Some e ->
    recordedFirst env (taskEnds env K fuel w clk dws) e.
Proof.
  induction dws as [|dw rest IH]; intros clk err clk' dws' evs; simpl.
  - intros H. inversion H; subst. discriminate.
  - pose proof (errgroup_error fuel w rest) as EE.
    pose proof (taskEnds_fst fuel w rest) as TF.
    destruct (flushSingleDestination env K fuel w clk dw)
      as [[[o1 c1] d1] e1] eqn:F.
    destruct (errgroup env K fuel w c1 rest) as [[[os c2] r2] e2] eqn:G.
    specialize (TF c1).
    destruct o1 as [[a|]| |]; destruct os as [[b|]| |];
      try (intros H; discriminate H); simpl.
    + specialize (IH _ _ _ _ _ G).
      destruct (first_done env c1) eqn:FD;
        intros H e E; subst err; inversion H; subst.
      * exists [], c1, (taskEnds env K fuel w c1 rest).
        split; [reflexivity|]. split; [constructor|]. left. exact FD.
      * destruct (IH e eq_refl) as (pre & t & post & E1 & E2 & E3).
        exists ((Returned (Some a), c1) :: pre), t, post.
        rewrite E1. split; [reflexivity|]. split; [|exact E3].
        constructor; [right; exact FD|exact E2].
    + specialize (EE _ _ _ _ _ G).
      intros H e E. subst err. inversion H; subst.
      exists [], c1, (taskEnds env K fuel w c1 rest).
      split; [reflexivity|]. split; [constructor|]. right.
      destruct EE as (EE & _).
      pose proof (proj1 EE eq_refl) as A.
      apply Forall_forall. intros r I.
      assert (I' : In (fst r) (map fst (taskResults env K fuel w c1 rest))).
      { rewrite <- TF. apply in_map. exact I. }
      apply in_map_iff in I'. destruct I' as (r' & <- & I').
      rewrite Forall_forall in A. apply A. exact I'.
    + specialize (IH _ _ _ _ _ G).
      intros H e E. subst err. inversion H; subst.
      destruct (IH e eq_refl) as (pre & t & post & E1 & E2 & E3).
      exists ((Returned None, c1) :: pre), t, post.
      rewrite E1. split; [reflexivity|]. split; [|exact E3].
      constructor; [left; reflexivity|exact E2].
    + intros H e E. subst err. discriminate H.
Qed.

End GroupError.

(** X13. A flush that returns on a buffer that was not empty logs the
    failure of its destinations once, after the events of all tasks and
    before the clear, exactly when some task returned an error, and the
    error logged is the error of one of the tasks: the one recorded
    first, which need not be that of the writer listed first. When every
    task returned nil the clear follows the events of the tasks at
    once. *)
Theorem Flush_logs_failure
  (env : Env) (K : positive) (fuel clk : nat) (w : realWorker)
  (u : unit) (clk' : nat) (w' : realWorker) (evs : list Event) :
  Flush env K fuel clk w = (Returned u, clk', w', evs) ->
  FlowCount (bf w) <> 0 ->
  let tasks := taskResults env K fuel w clk (destWriters w) in
  let ends := taskEnds env K fuel w clk (destWriters w) in
  exists err,
    evs = List.concat (map snd tasks)
          ++ match err with
             | Some e =>
               [EvLog (Some e) [] (logfields w [])
                  "one or more destinations failed"]
             | None => []
             end
          ++ [EvClear]
    /\ (err = None <-> Forall (fun r => fst r = Returned None) tasks)
    /\ (forall e, err = Some e -> In (Returned (Some e)) (map fst tasks))
    /\ map fst ends = map fst tasks
    /\ (forall e, err = Some e -> recordedFirst env ends e).
Proof.
  intros F NE. cbv zeta.
  destruct (Flush_nonempty env K _ _ _ _ _ _ _ NE F)
    as (og & dws & evg & G & X).
  destruct og as [err| |]; destruct X as (X1 & _ & X3); try discriminate.
  destruct (errgroup_settled env K _ _ _ _ _ _ _ _ G) as (_ & EG).
  destruct (errgroup_error env K _ _ _ _ _ _ _ _ G) as (E1 & E2).
  exists err. rewrite <- EG. split; [exact X3|].
  split; [exact E1|]. split; [exact E2|].
  split; [apply taskEnds_fst|].
  exact (errgroup_first env K _ _ _ _ _ _ _ _ G).
Qed.

Lemma Flush_logs_failure_witness :
  let w := NewWorker Examples.bothDown 0 (Examples.batch 10) in
  let r := Flush Examples.net Examples.K10 3 0 w in
  let tasks := taskResults Examples.net Examples.K10 3 w 0 (destWriters w) in
  let ends := taskEnds Examples.net Examples.K10 3 w 0 (destWriters w) in
  r = (Returned tt, clockOf r, stateOf r, eventsOf r)
  /\ FlowCount (bf w) <> 0
  /\ ends = [ (Returned (Some (MaxRetriesError 2 "slow")), 4%nat);
              (Returned (Some (MaxRetriesError 1 "fast")), 6%nat) ]
  /\ eventsOf r
     = List.concat (map snd tasks)
       ++ [EvLog (Some (MaxRetriesError 1 "fast")) [] (logfields w [])
             "one or more destinations failed"]
       ++ [EvClear]
  /\ exists err,
       eventsOf r
       = List.concat (map snd tasks)
         ++ match err with
            | Some e =>
              [EvLog (Some e) [] (logfields w [])
                 "one or more destinations failed"]
            | None => []
            end
         ++ [EvClear]
       /\ (forall e, err = Some e -> recordedFirst Examples.net ends e).
Proof.
  cbv zeta.
  assert (H : Flush Examples.net Examples.K10 3 0
                (NewWorker Examples.bothDown 0 (Examples.batch 10))
              = (Returned tt,
                 clockOf (Flush Examples.net Examples.K10 3 0
                            (NewWorker Examples.bothDown 0
                               (Examples.batch 10))),
                 stateOf (Flush Examples.net Examples.K10 3 0
                            (NewWorker Examples.bothDown 0
                               (Examples.batch 10))),
                 eventsOf (Flush Examples.net Examples.K10 3 0
                             (NewWorker Examples.bothDown 0
                                (Examples.batch 10)))))
    by (vm_compute; reflexivity).
  assert (N : FlowCount (bf (NewWorker Examples.bothDown 0
                               (Examples.batch 10)))
              <> 0) by discriminate.
  split; [exact H|]. split; [exact N|].
  split; [vm_compute; reflexivity|].
  split; [vm_compute; reflexivity|].
  destruct (Flush_logs_failure _ _ _ _ _ _ _ _ _ H N)
    as (err & E & _ & _ & _ & R).
  exists err. split; [exact E|exact R].
Defined.

(** The same flush on a network where the task listed first records its
    error first logs the error of that task. *)
Example Flush_logs_first_recorded :
  let w := NewWorker Examples.bothDown 0 (Examples.batch 10) in
  In (EvLog (Some (MaxRetriesError 1 "fast")) [] (logfields w [])
        "one or more destinations failed")
     (eventsOf (Flush Examples.net Examples.K10 3 0 w))
  /\ In (EvLog (Some (MaxRetriesError 2 "slow")) [] (logfields w [])
           "one or more destinations failed")
        (eventsOf (Flush Examples.netListed Examples.K10 3 0 w)).
Proof. cbv zeta. split; vm_compute; tauto. Qed.

(** X14. A flush that returned has emptied the buffer, so a flush that
    follows it at once, as the one made before shutting down, does
    nothing: no event, the clock and the worker as they are. *)
Theorem Flush_twice
  (env : Env) (K : positive) (fuel clk : nat) (w : realWorker)
  (u : unit) (clk' : nat) (w' : realWorker) (evs : list Event)
  (fuel2 : nat) :
  Flush env K fuel clk w = (Returned u, clk', w', evs) ->
  Flush env K fuel2 clk' w' = (Returned tt, clk', w', []).
Proof.
  intros F. pose proof (Flush_clears env K _ _ _ _ _ _ _ F) as E.
  unfold Flush. rewrite E. reflexivity.
Qed.

Lemma Flush_twice_witness :
  let w := NewWorker Examples.dual 0 (Examples.batch 10) in
  let r := Flush Examples.net Examples.K10 2 0 w in
  r = (Returned tt, clockOf r, stateOf r, eventsOf r)
  /\ Flush Examples.net Examples.K10 2 (clockOf r) (stateOf r)
     = (Returned tt, clockOf r, stateOf r, []).
Proof.
  cbv zeta.
  assert (H : Flush Examples.net Examples.K10 2 0
                (NewWorker Examples.dual 0 (Examples.batch 10))
              = (Returned tt,
                 clockOf (Flush Examples.net Examples.K10 2 0
                            (NewWorker Examples.dual 0 (Examples.batch 10))),
                 stateOf (Flush Examples.net Examples.K10 2 0
                            (NewWorker Examples.dual 0 (Examples.batch 10))),
                 eventsOf (Flush Examples.net Examples.K10 2 0
                             (NewWorker Examples.dual 0 (Examples.batch 10)))))
    by (vm_compute; reflexivity).
  split; [exact H|].
  exact (Flush_twice _ _ _ _ _ _ _ _ _ 2 H).
Defined.
